(** * server.py: context extraction, tenant routing and tool dispatch

    A shallow embedding of the EVAA MCP server (src/server.py) and the
    properties of its context-resolution protocol.

    Python [str] values are sequences of Unicode code points; they are
    modelled as lists of code points, so that every statement quantifies
    over all Python strings.  [None] is modelled by a constructor of
    [pyval]; dictionaries with string keys by [gmap string pyval]. *)

From Stdlib Require Import List NArith ZArith Bool Lia String Ascii.
From stdpp Require Import base option list strings gmap pretty.
From Equations Require Import Equations.
Import ListNotations.

Open Scope list_scope.

(* ===================================================================== *)
(** ** Python strings                                                     *)
(* ===================================================================== *)

Module PyStr.

(** A character is a code point, a string a list of them. *)
Abbreviation char := N (only parsing).
Abbreviation pystr := (list N) (only parsing).

(** String literals of the source, as code-point lists. *)
Definition str (s : string) : pystr :=
  List.map N_of_ascii (list_ascii_of_string s).

(** [str.isspace] on one character, which is also the class [\s] of [re]
    on [str] patterns (both are [Py_UNICODE_ISSPACE]). *)
Definition isspace (c : char) : bool :=
  ((9 <=? c) && (c <=? 13) || (28 <=? c) && (c <=? 32) ||
   (c =? 133) || (c =? 160) || (c =? 5760) ||
   (8192 <=? c) && (c <=? 8202) ||
   (c =? 8232) || (c =? 8233) || (c =? 8239) || (c =? 8287) ||
   (c =? 12288))%N.

(** Drop the longest prefix of characters satisfying [p]. *)
Fixpoint lstrip_by (p : char -> bool) (s : pystr) : pystr :=
  match s with
  | c :: s' => if p c then lstrip_by p s' else s
  | [] => []
  end.

(** The longest prefix of characters satisfying [p]. *)
Fixpoint take_by (p : char -> bool) (s : pystr) : pystr :=
  match s with
  | c :: s' => if p c then c :: take_by p s' else []
  | [] => []
  end.

(** [s] is empty or starts with a character that does not satisfy [p]. *)
Definition clean_start (p : char -> bool) (s : pystr) : bool :=
  match s with
  | c :: _ => negb (p c)
  | [] => true
  end.

Definition rstrip_by (p : char -> bool) (s : pystr) : pystr :=
  rev (lstrip_by p (rev s)).

(** [s.strip()]: leading and trailing whitespace removed. *)
Definition strip (s : pystr) : pystr := rstrip_by isspace (lstrip_by isspace s).

(** [s.strip(chars)]: leading and trailing characters of [chars] removed. *)
Definition is_one_of (chars : pystr) (c : char) : bool :=
  existsb (N.eqb c) chars.

Definition strip_chars (chars s : pystr) : pystr :=
  rstrip_by (is_one_of chars) (lstrip_by (is_one_of chars) s).

(** [s.split(sep)] for a one-character separator: never empty, and
    [''.split('/') == ['']]. *)
Fixpoint split (sep : char) (s : pystr) : list pystr :=
  match s with
  | [] => [[]]
  | c :: s' =>
      if (c =? sep)%N then [] :: split sep s'
      else match split sep s' with
           | seg :: segs => (c :: seg) :: segs
           | [] => [[c]]
           end
  end.

(** [s.startswith(p)], returning what follows the prefix. *)
Fixpoint after_prefix (p s : pystr) : option pystr :=
  match p, s with
  | [], _ => Some s
  | a :: p', b :: s' => if (a =? b)%N then after_prefix p' s' else None
  | _ :: _, [] => None
  end.

(** [sub in s] for strings. *)
Fixpoint contains (sub s : pystr) : bool :=
  match after_prefix sub s with
  | Some _ => true
  | None => match s with
            | [] => false
            | _ :: s' => contains sub s'
            end
  end.

(** [c in s] for one character. *)
Definition has_char (c : char) (s : pystr) : bool := existsb (N.eqb c) s.

End PyStr.
Import PyStr.

(* ===================================================================== *)
(** ** The fragment of [re] the server uses                              *)
(* ===================================================================== *)

Module Re.

(** Character classes of the patterns: [\s] and [[^\]]]. *)
Inductive cclass :=
| Space
| Except (c : char).

Definition in_class (k : cclass) (c : char) : bool :=
  match k with
  | Space => isspace c
  | Except x => negb (c =? x)%N
  end.

(** A pattern is a concatenation of literals and greedily repeated
    classes; [Star k] is [k*], [Plus k] is [k+]. *)
Inductive piece :=
| Lit (s : pystr)
| Star (k : cclass)
| Plus (k : cclass).

Definition pattern := list piece.

(** A successful match: the text consumed by each piece, in order, and
    the text after the match. *)
Definition matched : Type := list pystr * pystr.

Definition consumed (m : matched) : pystr := concat (fst m).
Definition remainder (m : matched) : pystr := snd m.

(** Text consumed by piece number [i]; a parenthesised piece is read
    back with this, as [m.group(n)]. *)
Definition piece_text (m : matched) (i : nat) : pystr := nth i (fst m) [].

(** Greedy repetition with backtracking: take as many characters of the
    class as possible, and give them back one at a time while the rest
    of the pattern, [cont], does not match. *)
Fixpoint greedy (k : cclass) (cont : pystr -> option matched) (s : pystr)
  : option (pystr * matched) :=
  let stop := match cont s with
              | Some m => Some ([], m)
              | None => None
              end in
  match s with
  | c :: s' =>
      if in_class k c then
        match greedy k cont s' with
        | Some (w, m) => Some (c :: w, m)
        | None => stop
        end
      else stop
  | [] => stop
  end.

Definition keep (w : pystr) (m : matched) : matched := (w :: fst m, snd m).

(** Match the pattern at the start of [s]. *)
Fixpoint match_here (p : pattern) (s : pystr) : option matched :=
  match p with
  | [] => Some ([], s)
  | Lit l :: p' =>
      match after_prefix l s with
      | Some s' => option_map (keep l) (match_here p' s')
      | None => None
      end
  | Star k :: p' =>
      match greedy k (match_here p') s with
      | Some (w, m) => Some (keep w m)
      | None => None
      end
  | Plus k :: p' =>
      match s with
      | c :: s' =>
          if in_class k c then
            match greedy k (match_here p') s' with
            | Some (w, m) => Some (keep (c :: w) m)
            | None => None
            end
          else None
      | [] => None
      end
  end.

(** [re.search(p, s)]: the match at the leftmost position that has one. *)
Fixpoint search (p : pattern) (s : pystr) : option matched :=
  match match_here p s with
  | Some m => Some m
  | None => match s with
            | [] => None
            | _ :: s' => search p s'
            end
  end.

(** [re.sub(p, '', s)]: every leftmost non-overlapping match deleted.  A
    match that consumes nothing deletes nothing, and the scan moves on by
    one character. *)
Equations sub (p : pattern) (s : pystr) : pystr by wf (length s) lt :=
  sub p [] := [];
  sub p (c :: s') with match_here p (c :: s') => {
    | Some m with lt_dec (length (remainder m)) (length (c :: s')) => {
        | left _ := sub p (remainder m);
        | right _ := c :: sub p s' };
    | None := c :: sub p s' }.

End Re.


(* ===================================================================== *)
(** ** Python values, dictionaries and exceptions                        *)
(* ===================================================================== *)

(** The values the tools pass around: [None] or a [str]. *)
Inductive pyval :=
| PNone
| PStr (s : pystr).

(** Truth value of a Python object: [None] and [''] are false. *)
Definition truthy (v : pyval) : bool :=
  match v with
  | PNone => false
  | PStr [] => false
  | PStr (_ :: _) => true
  end.

(** [a or b] *)
Definition py_or (a b : pyval) : pyval := if truthy a then a else b.

(** [a == b] *)
Definition py_eq (a b : pyval) : bool :=
  match a, b with
  | PNone, PNone => true
  | PStr x, PStr y => bool_decide (x = y)
  | _, _ => false
  end.

(** [f"{v}"] *)
Definition format (v : pyval) : pystr :=
  match v with
  | PNone => str "None"
  | PStr s => s
  end.

(** [d.get(k)] and [d.get(k, default)] *)
Definition dict_get (d : gmap string pyval) (k : string) : pyval :=
  default PNone (d !! k).

Definition dict_get_or (d : gmap string pyval) (k : string) (dflt : pyval)
  : pyval :=
  default dflt (d !! k).

(** A raised fault, an instance of [BaseException]: [is_Exception e] tells
    whether it is an instance of [Exception], the class the handlers of the
    tools name ([KeyboardInterrupt] and [SystemExit] are not), and
    [exn_str e] is [str(e)]. *)
Record exn := Exn { is_Exception : bool; exn_str : pystr }.

(** The outcome of evaluating a block that may raise. *)
Inductive outcome (A : Type) :=
| Ok (a : A)
| Raise (e : exn).
Arguments Ok {A} a.
Arguments Raise {A} e.

(** Sequencing, written [x ← c; k]: a fault in [c] skips [k]. *)
#[global] Instance outcome_ret : MRet outcome := fun A a => Ok a.
#[global] Instance outcome_bind : MBind outcome := fun A B f x =>
  match x with
  | Ok a => f a
  | Raise e => Raise e
  end.

(** [try: body  except Exception as e: handler(e)] around a block whose
    every path returns: a fault that is an [Exception] is handled, any
    other leaves the block.  The outcome is that of the call: [Ok s] when
    it returns [s], [Raise e] when [e] leaves it. *)
Definition try_except {A} (body : outcome A) (handler : exn -> A)
  : outcome A :=
  match body with
  | Ok a => Ok a
  | Raise e => if is_Exception e then Ok (handler e) else Raise e
  end.

(* ===================================================================== *)
(** ** [json.dumps] on the payloads of the form tools                    *)
(* ===================================================================== *)

Module Json.

Inductive jval :=
| JNull
| JStr (s : pystr)
| JBool (b : bool).

(** A Python value as a JSON value. *)
Definition of_py (v : pyval) : jval :=
  match v with
  | PNone => JNull
  | PStr s => JStr s
  end.

Definition hex_digit (n : N) : char :=
  (if n <? 10 then 48 + n else 87 + n)%N.

(** ['\\u{0:04x}'.format(n)] for [n < 0x10000]. *)
Definition u_escape (n : N) : pystr :=
  str "\u" ++ [hex_digit (n / 4096 mod 16); hex_digit (n / 256 mod 16);
               hex_digit (n / 16 mod 16); hex_digit (n mod 16)]%N.

(** One character of a string under [ensure_ascii=True]. *)
Definition escape_char (c : char) : pystr :=
  (if c =? 92 then str "\\"
   else if c =? 34 then [92; 34]
   else if c =? 8 then str "\b"
   else if c =? 12 then str "\f"
   else if c =? 10 then str "\n"
   else if c =? 13 then str "\r"
   else if c =? 9 then str "\t"
   else if (32 <=? c) && (c <=? 126) then [c]
   else if c <? 65536 then u_escape c
   else let n := c - 65536 in
        u_escape (N.lor 55296 (N.land (N.shiftr n 10) 1023)) ++
        u_escape (N.lor 56320 (N.land n 1023)))%N.

Definition quote (s : pystr) : pystr :=
  [34%N] ++ concat (List.map escape_char s) ++ [34%N].

Definition dumps_val (v : jval) : pystr :=
  match v with
  | JNull => str "null"
  | JStr s => quote s
  | JBool true => str "true"
  | JBool false => str "false"
  end.

Fixpoint join (sep : pystr) (l : list pystr) : pystr :=
  match l with
  | [] => []
  | [x] => x
  | x :: l' => x ++ sep ++ join sep l'
  end.

(** [json.dumps(d)] for a dict literal, given as its items in insertion
    order; the default separators are [', '] and [': ']. *)
Definition dumps (d : list (string * jval)) : pystr :=
  str "{" ++
  join (str ", ")
    (List.map (fun kv => quote (str (fst kv)) ++ str ": " ++ dumps_val (snd kv)) d)
  ++ str "}".

End Json.

(* ===================================================================== *)
(** ** The context extractor                                             *)
(* ===================================================================== *)

(** The three tag keys. *)
Inductive key := SESSION_ID | PATH | BOT_ID.

Definition key_name (k : key) : string :=
  match k with
  | SESSION_ID => "SESSION_ID"
  | PATH => "PATH"
  | BOT_ID => "BOT_ID"
  end.

(** The dictionary key under which the value of a tag is stored. *)
Definition field (k : key) : string :=
  match k with
  | SESSION_ID => "session_id"
  | PATH => "path"
  | BOT_ID => "bot_id"
  end.

Definition lbracket : char := 91%N.
Definition rbracket : char := 93%N.
Definition slash : char := 47%N.

(** The literal prefix of a tag: [[SESSION_ID:], [[PATH:], [[BOT_ID:]. *)
Definition tag_prefix (k : key) : pystr := str ("[" ++ key_name k ++ ":").

(** [r'\[KEY:\s*([^\]]+)\]'] ; the group is piece 2. *)
Definition capture_re (k : key) : Re.pattern :=
  [Re.Lit (tag_prefix k); Re.Star Re.Space; Re.Plus (Re.Except rbracket);
   Re.Lit [rbracket]].

(** [r'\[KEY:[^\]]*\]\s*'] *)
Definition delete_re (k : key) : Re.pattern :=
  [Re.Lit (tag_prefix k); Re.Star (Re.Except rbracket); Re.Lit [rbracket];
   Re.Star Re.Space].

(** [m = re.search(capture, message); if m: context[f] = m.group(1).strip()] *)
Definition capture (k : key) (message : pystr) (context : gmap string pyval)
  : gmap string pyval :=
  match Re.search (capture_re k) message with
  | Some m => <[field k := PStr (strip (Re.piece_text m 2))]> context
  | None => context
  end.

Definition extract_context_from_message (message : pystr)
  : gmap string pyval :=
  let context : gmap string pyval :=
    <["session_id" := PNone]> (<["path" := PNone]> (<["bot_id" := PNone]>
      (<["clean_message" := PStr message]> ∅))) in
  let context := capture SESSION_ID message context in
  let context := capture PATH message context in
  let context := capture BOT_ID message context in
  let clean_message := Re.sub (delete_re SESSION_ID) message in
  let clean_message := Re.sub (delete_re PATH) clean_message in
  let clean_message := Re.sub (delete_re BOT_ID) clean_message in
  <["clean_message" := PStr (strip clean_message)]> context.

(** [path.strip('/').split('/')[-1]], and [""] for a false [path]. *)
Definition get_bot_id_from_path (path : pyval) : pystr :=
  if negb (truthy path) then []
  else match path with
       | PStr p => List.last (split slash (strip_chars [slash] p)) []
       | PNone => []
       end.

(** The condition of the detection gate:
    [query and ('[SESSION_ID:' in query or '[PATH:' in query or
                '[BOT_ID:' in query)] *)
Definition gate (query : pystr) : bool :=
  truthy (PStr query) &&
  (contains (tag_prefix SESSION_ID) query || contains (tag_prefix PATH) query
   || contains (tag_prefix BOT_ID) query).

(* ===================================================================== *)
(** ** Configuration and the outside world                               *)
(* ===================================================================== *)

(** The constants imported from [config]: the form URL templates. *)
Record config := Config {
  FORM_URL_1 : pystr;
  FORM_URL_2 : pystr;
  cancelAppointmentFormUrl : pystr;
  rescheduleAppointmentFormUrl : pystr
}.

(** A hit of the vector backend; the server only prints it. *)
Record hit := Hit { hit_repr : pystr }.

(** The arguments of [index.search_records]. *)
Record search_request := SearchRequest {
  namespace : pyval;
  inputs_text : pyval;
  top_k : N;
  rerank_model : pystr;
  rerank_top_n : N;
  rank_fields : list pystr
}.

(** What a call meets outside the process: the clock, [time_ms] being the
    outcome of [int(time.time() * 1000)], and the vector backend,
    [search_records req] being the outcome of
    [index.search_records(...).result.hits].  Either may raise. *)
Record world := World {
  time_ms : outcome Z;
  search_records : search_request -> outcome (list hit)
}.

(** [str(results)] for a list of hits. *)
Definition repr_hits (hits : list hit) : pystr :=
  str "[" ++ Json.join (str ", ") (List.map hit_repr hits) ++ str "]".

(* ===================================================================== *)
(** ** The tools                                                         *)
(* ===================================================================== *)

Definition fallback_session_id : pystr := str "fallback-session-id".
Definition default_namespace : pystr := str "hr4s".
Definition nothing_found : pystr :=
  str "Sorry, I couldn't find any relevant information.".

(** The opening block of the three form tools: the values of
    [(session_id, bot_id)] once the tags were read and the session id was
    defaulted. *)
Definition form_context (query : pystr) (session_id bot_id : pyval)
  : pyval * pyval :=
  let '(bot_id, session_id) :=
    if gate query then
      let context := extract_context_from_message query in
      let bot_id := py_or (dict_get context "bot_id") bot_id in
      let session_id := py_or (dict_get context "session_id") session_id in
      (bot_id, session_id)
    else (bot_id, session_id) in
  let session_id :=
    if negb (truthy session_id) then PStr fallback_session_id
    else session_id in
  (session_id, bot_id).

(** [separator = '&' if '?' in url else '?'] *)
Definition separator (url : pystr) : pystr :=
  if has_char 63%N url then str "&" else str "?".

(** [f"{url}{separator}session_id={session_id}&ts={ts}"] *)
Definition form_url_with_session (url : pystr) (session_id : pyval) (ts : Z)
  : pystr :=
  url ++ separator url ++ str "session_id=" ++ format session_id ++
  str "&ts=" ++ str (pretty ts).

Definition success_payload (reply url : pystr) (session_id : pyval) : pystr :=
  Json.dumps [("reply", Json.JStr reply); ("form_url", Json.JStr url);
              ("success", Json.JBool true);
              ("session_id", Json.of_py session_id)].

Definition failure_payload (reply : pystr) (e : exn) : pystr :=
  Json.dumps [("reply", Json.JStr reply); ("success", Json.JBool false);
              ("error", Json.JStr (exn_str e))].

(** The template the booking tool selects:
    [FORM_URL_2 if bot_id == "fp01" else FORM_URL_1]. *)
Definition booking_url (cfg : config) (bot_id : pyval) : pystr :=
  if py_eq bot_id (PStr (str "fp01")) then FORM_URL_2 cfg else FORM_URL_1 cfg.

Definition book_appointment_tool (cfg : config) (w : world)
    (query : pystr) (session_id bot_id : pyval) : outcome pystr :=
  try_except
    (let '(session_id, bot_id) := form_context query session_id bot_id in
     let FORM_URL := booking_url cfg bot_id in
     ts ← time_ms w;
     mret (success_payload
       (str "I'm opening the appointment booking form for you. Please fill it out to book your appointment.")
       (form_url_with_session FORM_URL session_id ts) session_id))
    (failure_payload
       (str "Sorry, I couldn't open the booking form at this moment.")).

Definition cancel_appointment_tool (cfg : config) (w : world)
    (query : pystr) (session_id bot_id : pyval) : outcome pystr :=
  try_except
    (let '(session_id, bot_id) := form_context query session_id bot_id in
     ts ← time_ms w;
     mret (success_payload
       (str "I'm opening the appointment cancellation form for you. Please fill it out to cancel your appointment.")
       (form_url_with_session (cancelAppointmentFormUrl cfg) session_id ts)
       session_id))
    (failure_payload
       (str "Sorry, I couldn't open the appointment cancellation form at this moment.")).

Definition reschedule_appointment_tool (cfg : config) (w : world)
    (query : pystr) (session_id bot_id : pyval) : outcome pystr :=
  try_except
    (let '(session_id, bot_id) := form_context query session_id bot_id in
     ts ← time_ms w;
     mret (success_payload
       (str "I'm opening the appointment rescheduling form for you. Please fill it out to reschedule your appointment.")
       (form_url_with_session (rescheduleAppointmentFormUrl cfg) session_id ts)
       session_id))
    (failure_payload
       (str "Sorry, I couldn't open the appointment rescheduling form at this moment.")).

(** The opening block of the retrieval tool, up to the path fallback: the
    values of [(session_id, bot_id, query)] before the namespace is
    chosen. *)
Definition rag_context (query : pystr) (session_id bot_id : pyval)
  : pyval * pyval * pyval :=
  let context : gmap string pyval := ∅ in
  let '(context, session_id, bot_id, query) :=
    if gate query then
      let context := extract_context_from_message query in
      let session_id := py_or (dict_get context "session_id") session_id in
      let bot_id := py_or (dict_get context "bot_id") bot_id in
      let query := dict_get_or context "clean_message" (PStr query) in
      (context, session_id, bot_id, query)
    else (context, session_id, bot_id, PStr query) in
  let bot_id :=
    if negb (truthy bot_id) && truthy (dict_get context "path")
    then PStr (get_bot_id_from_path (dict_get context "path"))
    else bot_id in
  (session_id, bot_id, query).

(** The request the retrieval tool sends to the backend. *)
Definition rag_request (query : pystr) (session_id bot_id : pyval)
  : search_request :=
  let '(session_id, bot_id, query) := rag_context query session_id bot_id in
  let namespace := if truthy bot_id then bot_id else PStr default_namespace in
  {| namespace := namespace;
     inputs_text := query;
     top_k := 7;
     rerank_model := str "bge-reranker-v2-m3";
     rerank_top_n := 5;
     rank_fields := [str "text"] |}.

Definition rag_retrieval_tool (w : world)
    (query : pystr) (session_id bot_id : pyval) : outcome pystr :=
  try_except
    (results ← search_records w (rag_request query session_id bot_id);
     match results with
     | [] => mret nothing_found
     | _ :: _ => mret (str "Here's what I found:" ++ [10%N; 10%N] ++
                       repr_hits results)
     end)
    (fun e => str "Error retrieving context from Pinecone: " ++ exn_str e).


(* ===================================================================== *)
(** ** Vocabulary of the specification                                   *)
(* ===================================================================== *)

(** The values of the extractor, by name. *)
Definition tag_value (k : key) (message : pystr) : pyval :=
  dict_get (extract_context_from_message message) (field k).

Definition clean_message (message : pystr) : pyval :=
  dict_get (extract_context_from_message message) "clean_message".

(** The message holds a complete tag of key [k]: its prefix, and a closing
    bracket somewhere after it. *)
Fixpoint has_tag (k : key) (s : pystr) : bool :=
  match after_prefix (tag_prefix k) s with
  | Some r => has_char rbracket r
  | None => false
  end
  || match s with
     | [] => false
     | _ :: s' => has_tag k s'
     end.

(** The tenant precedence of the specification: the tenant of the tag,
    else the explicit one, else the one derived from the path of the tag,
    else none. *)
Definition tenant_precedence (query : pystr) (explicit : pyval) : pyval :=
  if truthy (tag_value BOT_ID query) then tag_value BOT_ID query
  else if truthy explicit then explicit
  else if truthy (tag_value PATH query)
       then PStr (get_bot_id_from_path (tag_value PATH query))
  else PNone.

(** Two values denote the same tenant when they are equal, or both absent
    ([None] or the empty string). *)
Definition same_tenant (a b : pyval) : Prop :=
  a = b \/ (truthy a = false /\ truthy b = false).

(** The last non-empty segment of a path, and [""] when there is none. *)
Definition last_nonempty_segment (p : pystr) : pystr :=
  List.last (List.filter (fun seg => negb (bool_decide (seg = [])))
                         (split slash p)) [].

(** The resolved values, by name. *)
Definition form_session (query : pystr) (session_id bot_id : pyval) : pyval :=
  fst (form_context query session_id bot_id).

Definition form_tenant (query : pystr) (session_id bot_id : pyval) : pyval :=
  snd (form_context query session_id bot_id).

Definition rag_tenant (query : pystr) (session_id bot_id : pyval) : pyval :=
  snd (fst (rag_context query session_id bot_id)).

Definition rag_query (query : pystr) (session_id bot_id : pyval) : pyval :=
  snd (rag_context query session_id bot_id).

(** The tenant of the form tools: the tenant of the tag, else the
    explicit one. *)
Definition tag_or_explicit (query : pystr) (explicit : pyval) : pyval :=
  if truthy (tag_value BOT_ID query) then tag_value BOT_ID query
  else explicit.

(** A message written by the composer: free text and tags, where brackets
    only delimit tags.  A segment is one tag and the text up to the next
    tag. *)
Record segment := Segment {
  seg_key : key;
  seg_value : pystr;
  seg_text : pystr
}.

Definition render_segment (sg : segment) : pystr :=
  tag_prefix (seg_key sg) ++ seg_value sg ++ [rbracket] ++ seg_text sg.

Definition render (segs : list segment) : pystr :=
  concat (List.map render_segment segs).

Definition bracket_free (s : pystr) : bool :=
  negb (has_char lbracket s) && negb (has_char rbracket s).

Definition segment_ok (sg : segment) : bool :=
  bracket_free (seg_value sg) && negb (has_char lbracket (seg_text sg)).

Definition well_formed (t0 : pystr) (segs : list segment) : bool :=
  negb (has_char lbracket t0) && forallb segment_ok segs.

(** The text of a message with every tag, and the whitespace that follows
    it, left out. *)
Definition text_of (segs : list segment) : pystr :=
  concat (List.map (fun sg => lstrip_by isspace (seg_text sg)) segs).

Definition key_eqb (a b : key) : bool :=
  match a, b with
  | SESSION_ID, SESSION_ID | PATH, PATH | BOT_ID, BOT_ID => true
  | _, _ => false
  end.

(** What one deleting pass does to a well-formed message: the text that
    follows the deleted tags of key [k] joins the text before them
    ([absorbed], for the tags at the head of the list), and the other
    segments stay ([remaining]). *)
Fixpoint absorbed (k : key) (segs : list segment) : pystr :=
  match segs with
  | [] => []
  | sg :: rest =>
      if key_eqb (seg_key sg) k
      then lstrip_by isspace (seg_text sg) ++ absorbed k rest
      else []
  end.

Fixpoint remaining (k : key) (segs : list segment) : list segment :=
  match segs with
  | [] => []
  | sg :: rest =>
      if key_eqb (seg_key sg) k then remaining k rest
      else {| seg_key := seg_key sg; seg_value := seg_value sg;
              seg_text := seg_text sg ++ absorbed k rest |}
           :: remaining k rest
  end.

(** The value the extractor reads for key [k] in a well-formed message:
    that of the first tag of the key whose value is not empty. *)
Fixpoint captured (k : key) (segs : list segment) : pyval :=
  match segs with
  | [] => PNone
  | sg :: rest =>
      if key_eqb (seg_key sg) k && negb (bool_decide (seg_value sg = []))
      then PStr (strip (seg_value sg))
      else captured k rest
  end.

(** What a piece of a pattern accepts: a literal its own text, [k*] any
    run of the class, [k+] a non-empty one. *)
Inductive conforms : Re.piece -> list N -> Prop :=
| conforms_lit l : conforms (Re.Lit l) l
| conforms_star k w :
    forallb (Re.in_class k) w = true -> conforms (Re.Star k) w
| conforms_plus k w :
    w <> [] -> forallb (Re.in_class k) w = true -> conforms (Re.Plus k) w.

(** The printable ASCII characters, which [json.dumps] leaves as they are
    or writes its escapes with. *)
Definition printable (c : N) : bool := ((32 <=? c) && (c <=? 126))%N.

(** A configuration and two worlds to run the tools in: one where the
    clock and the backend answer, one where both raise. *)
Definition sample_config : config :=
  {| FORM_URL_1 := str "https://forms.example/book";
     FORM_URL_2 := str "https://forms.example/book?form=2";
     cancelAppointmentFormUrl := str "https://forms.example/cancel";
     rescheduleAppointmentFormUrl := str "https://forms.example/move?step=1" |}.

Definition quiet_world : world :=
  {| time_ms := Ok 1730000000123%Z;
     search_records := fun _ => Ok [] |}.

Definition broken_world : world :=
  {| time_ms := Raise (Exn true (str "clock unavailable"));
     search_records :=
       fun _ => Raise (Exn true (str "connection timed out")) |}.

(** A world where the call is interrupted while the backend is asked:
    [KeyboardInterrupt()], whose [str] is empty. *)
Definition interrupted_world : world :=
  {| time_ms := Ok 1730000000123%Z;
     search_records := fun _ => Raise (Exn false []) |}.

(** From the specification, the deletion of tags said without a pattern:
    the tag of key [k] at the start of [s] (its prefix, any text without a
    closing bracket, the closing bracket) gives the text behind it and
    behind the run of whitespace that follows it. *)
Definition after_tag (k : key) (s : pystr) : option pystr :=
  match after_prefix (tag_prefix k) s with
  | Some r =>
      match lstrip_by (fun c => negb (c =? rbracket)%N) r with
      | _ :: t => Some (lstrip_by isspace t)
      | [] => None
      end
  | None => None
  end.

(** [s] read from left to right, every tag of key [k] left out together
    with the whitespace after it, every other character kept. *)
Equations without_tags (k : key) (s : pystr) : pystr by wf (length s) lt :=
  without_tags k [] := [];
  without_tags k (c :: s') with after_tag k (c :: s') => {
    | Some rest with lt_dec (length rest) (length (c :: s')) => {
        | left _ := without_tags k rest;
        | right _ := c :: without_tags k s' };
    | None := c :: without_tags k s' }.

(** The characters [strip('/')] removes. *)
Definition is_slash : char -> bool := is_one_of [slash].

#[global] Arguments tag_prefix : simpl never.
#[global] Arguments has_char : simpl never.

(* ===================================================================== *)
(** * Properties                                                         *)
(* ===================================================================== *)

(** ** Strings *)

Lemma forallb_rev {A} (f : A -> bool) l : forallb f (rev l) = forallb f l.
Proof.
  induction l as [|x l IH]; simpl; [done|].
  rewrite forallb_app, IH. simpl. by destruct (f x), (forallb f l).
Qed.

Lemma existsb_rev {A} (f : A -> bool) l : existsb f (rev l) = existsb f l.
Proof.
  induction l as [|x l IH]; simpl; [done|].
  rewrite existsb_app, IH. simpl. by destruct (f x), (existsb f l).
Qed.

Section Strings.
Variable p : char -> bool.

Lemma take_by_lstrip_by s : take_by p s ++ lstrip_by p s = s.
Proof.
  induction s as [|c s IH]; simpl; [done|].
  destruct (p c); simpl; [by rewrite IH | done].
Qed.

Lemma lstrip_by_clean s : clean_start p (lstrip_by p s) = true.
Proof.
  induction s as [|c s IH]; simpl; [done|].
  destruct (p c) eqn:E; [done|]. simpl. by rewrite E.
Qed.

Lemma lstrip_by_fix s : clean_start p s = true -> lstrip_by p s = s.
Proof. destruct s as [|c s]; simpl; [done|]. by destruct (p c). Qed.

Lemma lstrip_by_idem s : lstrip_by p (lstrip_by p s) = lstrip_by p s.
Proof. apply lstrip_by_fix, lstrip_by_clean. Qed.

Lemma lstrip_by_app a r :
  clean_start p r = true -> lstrip_by p (a ++ r) = lstrip_by p a ++ r.
Proof.
  intros Hr. induction a as [|c a IH]; simpl.
  - by apply lstrip_by_fix.
  - by destruct (p c).
Qed.

Lemma lstrip_by_all w r :
  forallb p w = true -> lstrip_by p (w ++ r) = lstrip_by p r.
Proof.
  induction w as [|c w IH]; simpl; [done|].
  intros [Hc Hw]%andb_true_iff. rewrite Hc. auto.
Qed.

Lemma lstrip_by_nil_all s : lstrip_by p s = [] -> forallb p s = true.
Proof.
  induction s as [|c s IH]; simpl; [done|].
  destruct (p c); [auto | done].
Qed.

Lemma take_by_all s : forallb p (take_by p s) = true.
Proof.
  induction s as [|c s IH]; simpl; [done|].
  destruct (p c) eqn:E; simpl; [by rewrite E | done].
Qed.

(** What [rstrip_by] removes is a run of [p] at the end. *)
Lemma rstrip_by_split s :
  exists w, s = rstrip_by p s ++ w /\ forallb p w = true.
Proof.
  unfold rstrip_by. exists (rev (take_by p (rev s))). split.
  - rewrite <- rev_app_distr, take_by_lstrip_by. by rewrite rev_involutive.
  - rewrite forallb_rev. apply take_by_all.
Qed.

Lemma rstrip_by_idem s : rstrip_by p (rstrip_by p s) = rstrip_by p s.
Proof.
  unfold rstrip_by. by rewrite rev_involutive, lstrip_by_idem.
Qed.

Lemma rstrip_by_clean_start s :
  clean_start p s = true -> clean_start p (rstrip_by p s) = true.
Proof.
  intros Hs. destruct (rstrip_by_split s) as (w & Hw & _).
  destruct (rstrip_by p s) as [|c r] eqn:E; [done|].
  rewrite Hw in Hs. exact Hs.
Qed.

Lemma strip_by_idem s :
  rstrip_by p (lstrip_by p (rstrip_by p (lstrip_by p s)))
  = rstrip_by p (lstrip_by p s).
Proof.
  rewrite (lstrip_by_fix (rstrip_by p _)).
  - apply rstrip_by_idem.
  - apply rstrip_by_clean_start, lstrip_by_clean.
Qed.

Lemma has_char_lstrip_by c s :
  has_char c s = false -> has_char c (lstrip_by p s) = false.
Proof.
  unfold has_char. induction s as [|x s IH]; simpl; [done|].
  intros [Hx Hs]%orb_false_iff. destruct (p x); [auto|].
  simpl. by rewrite Hx, Hs.
Qed.

Lemma has_char_rstrip_by c s :
  has_char c s = false -> has_char c (rstrip_by p s) = false.
Proof.
  unfold rstrip_by, has_char. intros Hs.
  rewrite existsb_rev. apply has_char_lstrip_by.
  unfold has_char. by rewrite existsb_rev.
Qed.
End Strings.

Lemma strip_idem s : strip (strip s) = strip s.
Proof. apply strip_by_idem. Qed.

Lemma has_char_strip c s : has_char c s = false -> has_char c (strip s) = false.
Proof. intros H. by apply has_char_rstrip_by, has_char_lstrip_by. Qed.

Lemma has_char_app c a b : has_char c (a ++ b) = has_char c a || has_char c b.
Proof. apply existsb_app. Qed.

Lemma has_char_cons c x s : has_char c (x :: s) = (c =? x)%N || has_char c s.
Proof. done. Qed.

Lemma strip_lstrip_all w s :
  forallb isspace w = true -> strip (w ++ s) = strip s.
Proof. intros H. unfold strip. by rewrite lstrip_by_all. Qed.

Lemma strip_all_space w : forallb isspace w = true -> strip w = [].
Proof.
  intros H. rewrite <- (app_nil_r w). by rewrite strip_lstrip_all.
Qed.

Lemma after_prefix_app l s : after_prefix l (l ++ s) = Some s.
Proof.
  induction l as [|c l IH]; simpl; [by destruct s|].
  by rewrite N.eqb_refl.
Qed.

Lemma after_prefix_Some l s r : after_prefix l s = Some r -> s = l ++ r.
Proof.
  revert s. induction l as [|c l IH]; intros [|x s]; simpl; try done.
  - by intros [= ->].
  - by intros [= ->].
  - destruct (c =? x)%N eqn:E; [|done]. apply N.eqb_eq in E as ->.
    intros H. by rewrite (IH _ H).
Qed.

(** ** The regular expressions *)

Lemma sub_nil p : Re.sub p [] = [].
Proof. by simp sub. Qed.

Lemma sub_skip p c s :
  Re.match_here p (c :: s) = None -> Re.sub p (c :: s) = c :: Re.sub p s.
Proof. intros H. simp sub. rewrite H. done. Qed.

Lemma sub_hit p c s m :
  Re.match_here p (c :: s) = Some m ->
  length (Re.remainder m) < length (c :: s) ->
  Re.sub p (c :: s) = Re.sub p (Re.remainder m).
Proof.
  intros H Hlt. simp sub. rewrite H. simpl.
  destruct (lt_dec _ _) as [?|Hn]; [done | by destruct Hn].
Qed.

Lemma greedy_run k cont s :
  (forall c t, Re.in_class k c = true -> cont (c :: t) = None) ->
  Re.greedy k cont s =
    match cont (lstrip_by (Re.in_class k) s) with
    | Some m => Some (take_by (Re.in_class k) s, m)
    | None => None
    end.
Proof.
  intros Hcont. induction s as [|c s IH]; simpl; [done|].
  destruct (Re.in_class k c) eqn:E; [|done].
  rewrite IH. destruct (cont (lstrip_by _ s)); [done|].
  by rewrite (Hcont c s E).
Qed.

Lemma greedy_end k cont s :
  (forall t, cont t = Some ([], t)) ->
  Re.greedy k cont s =
    Some (take_by (Re.in_class k) s, ([], lstrip_by (Re.in_class k) s)).
Proof.
  intros Hcont. induction s as [|c s IH]; simpl; rewrite Hcont; [done|].
  destruct (Re.in_class k c); [by rewrite IH | done].
Qed.

Lemma greedy_fails k cont s :
  (forall t, has_char rbracket t = false -> cont t = None) ->
  has_char rbracket s = false ->
  Re.greedy k cont s = None.
Proof.
  intros Hcont. induction s as [|c s IH]; intros Hs; cbn [Re.greedy].
  - by rewrite Hcont.
  - rewrite (Hcont (c :: s) Hs).
    rewrite has_char_cons in Hs. apply orb_false_iff in Hs as [_ Hs].
    rewrite (IH Hs). by destruct (Re.in_class k c).
Qed.

Lemma except_all c s :
  has_char c s = false -> forallb (Re.in_class (Re.Except c)) s = true.
Proof.
  induction s as [|x s IH]; [done|].
  rewrite has_char_cons. intros [Hx Hs]%orb_false_iff.
  simpl. rewrite N.eqb_sym, Hx. simpl. auto.
Qed.

Lemma lstrip_by_except c v t :
  has_char c v = false ->
  lstrip_by (Re.in_class (Re.Except c)) (v ++ c :: t) = c :: t.
Proof.
  intros Hv. rewrite lstrip_by_all by by apply except_all.
  simpl. by rewrite N.eqb_refl.
Qed.

Lemma take_by_except c v t :
  has_char c v = false ->
  take_by (Re.in_class (Re.Except c)) (v ++ c :: t) = v.
Proof.
  intros Hv. apply (app_inv_tail (c :: t)).
  pose proof (take_by_lstrip_by (Re.in_class (Re.Except c)) (v ++ c :: t)) as H.
  by rewrite lstrip_by_except in H.
Qed.

Lemma tag_prefix_cons k : exists l, tag_prefix k = lbracket :: l.
Proof. destruct k; eexists; reflexivity. Qed.

Lemma after_tag_prefix_other k c s :
  c <> lbracket -> after_prefix (tag_prefix k) (c :: s) = None.
Proof.
  intros Hc. destruct (tag_prefix_cons k) as [l ->].
  cbn [after_prefix]. by rewrite (proj2 (N.eqb_neq lbracket c)).
Qed.

Lemma after_tag_prefix_nil k : after_prefix (tag_prefix k) [] = None.
Proof. by destruct k. Qed.

(** *** The deleting pattern *)

Lemma delete_no_prefix k s :
  after_prefix (tag_prefix k) s = None ->
  Re.match_here (delete_re k) s = None.
Proof. intros H. unfold delete_re. cbn [Re.match_here]. by rewrite H. Qed.

Lemma delete_unclosed k s :
  has_char rbracket s = false ->
  Re.match_here (delete_re k) (tag_prefix k ++ s) = None.
Proof.
  intros Hs. unfold delete_re. cbn [Re.match_here].
  rewrite after_prefix_app, greedy_fails; [done| |done].
  intros [|c t]; [done|]. rewrite has_char_cons.
  intros [Hc _]%orb_false_iff. cbn [Re.match_here after_prefix].
  by rewrite Hc.
Qed.

Lemma delete_tag k v t :
  has_char rbracket v = false ->
  Re.match_here (delete_re k) (tag_prefix k ++ v ++ rbracket :: t)
  = Some ([tag_prefix k; v; [rbracket]; take_by isspace t],
          lstrip_by isspace t).
Proof.
  intros Hv. unfold delete_re. cbn [Re.match_here].
  rewrite after_prefix_app, greedy_run.
  - rewrite lstrip_by_except, take_by_except by done.
    cbn [after_prefix]. rewrite N.eqb_refl.
    by rewrite (greedy_end Re.Space _ t).
  - intros c t' Hc. cbn [after_prefix Re.in_class] in *.
    rewrite N.eqb_sym. by destruct (c =? rbracket)%N.
Qed.

(** *** The capturing pattern *)

Lemma isspace_rbracket c : isspace c = true -> (c =? rbracket)%N = false.
Proof.
  intros H. destruct (c =? rbracket)%N eqn:E; [|done].
  apply N.eqb_eq in E. by subst c.
Qed.

Lemma capture_no_prefix k s :
  after_prefix (tag_prefix k) s = None ->
  Re.match_here (capture_re k) s = None.
Proof. intros H. unfold capture_re. cbn [Re.match_here]. by rewrite H. Qed.

(** The value and the closing bracket, once the whitespace is passed. *)
Lemma value_then_bracket c v t :
  (c =? rbracket)%N = false -> has_char rbracket v = false ->
  Re.match_here [Re.Plus (Re.Except rbracket); Re.Lit [rbracket]]
    (c :: v ++ rbracket :: t)
  = Some ([c :: v; [rbracket]], t).
Proof.
  intros Hc Hv. cbn [Re.match_here Re.in_class]. rewrite Hc. cbn [negb].
  rewrite greedy_run.
  - rewrite lstrip_by_except, take_by_except by done.
    cbn [after_prefix]. by rewrite N.eqb_refl.
  - intros x t' Hx. cbn [after_prefix Re.in_class] in *.
    rewrite N.eqb_sym. by destruct (x =? rbracket)%N.
Qed.

Lemma value_needs_bracket t :
  has_char rbracket t = false ->
  Re.match_here [Re.Plus (Re.Except rbracket); Re.Lit [rbracket]] t = None.
Proof.
  intros Ht. destruct t as [|c t]; [done|].
  cbn [Re.match_here]. destruct (Re.in_class _ c); [|done].
  rewrite has_char_cons in Ht. apply orb_false_iff in Ht as [_ Ht].
  rewrite greedy_fails; [done| |done].
  intros [|x t']; [done|]. rewrite has_char_cons.
  intros [Hx _]%orb_false_iff. cbn [Re.match_here after_prefix].
  by rewrite Hx.
Qed.

Lemma capture_unclosed k s :
  has_char rbracket s = false ->
  Re.match_here (capture_re k) (tag_prefix k ++ s) = None.
Proof.
  intros Hs. unfold capture_re. cbn [Re.match_here].
  rewrite after_prefix_app, greedy_fails; [done| |done].
  apply value_needs_bracket.
Qed.

Lemma capture_empty k t :
  Re.match_here (capture_re k) (tag_prefix k ++ rbracket :: t) = None.
Proof.
  unfold capture_re. cbn [Re.match_here]. by rewrite after_prefix_app.
Qed.

Lemma value_at_bracket t :
  Re.match_here [Re.Plus (Re.Except rbracket); Re.Lit [rbracket]]
    (rbracket :: t) = None.
Proof. done. Qed.

(** [\s*] takes the leading whitespace of the value, and gives back its
    last character when the value is nothing but whitespace. *)
Lemma space_then_value cont v t :
  (forall c v, (c =? rbracket)%N = false -> has_char rbracket v = false ->
     cont (c :: v ++ rbracket :: t) = Some ([c :: v; [rbracket]], t)) ->
  cont (rbracket :: t) = None ->
  v <> [] -> has_char rbracket v = false ->
  exists w g,
    Re.greedy Re.Space cont (v ++ rbracket :: t)
    = Some (w, ([g; [rbracket]], t))
    /\ forallb isspace w = true /\ w ++ g = v.
Proof.
  intros Hcont Hrb.
  induction v as [|c v IH]; [done|]. intros _ Hv.
  rewrite has_char_cons in Hv. apply orb_false_iff in Hv as [Hc Hv].
  rewrite N.eqb_sym in Hc.
  pose proof (Hcont c v Hc Hv) as Hstop.
  destruct (isspace c) eqn:Ec.
  - destruct v as [|c' v'].
    + exists [], [c]. split; [|by cbn].
      cbn [app Re.greedy Re.in_class] in *.
      change (isspace rbracket) with false. cbn iota.
      by rewrite Ec, Hrb, Hstop.
    + destruct (IH ltac:(done) Hv) as (w & g & E & Hw & Hwg).
      exists (c :: w), g. split; [|by cbn; rewrite Ec, Hw, Hwg].
      cbn [app Re.greedy Re.in_class] in *. by rewrite Ec, E.
  - exists [], (c :: v). split; [|done].
    cbn [app Re.greedy Re.in_class] in *. by rewrite Ec, Hstop.
Qed.

Lemma capture_tag k v t :
  v <> [] -> has_char rbracket v = false ->
  exists m,
    Re.match_here (capture_re k) (tag_prefix k ++ v ++ rbracket :: t) = Some m
    /\ strip (Re.piece_text m 2) = strip v.
Proof.
  intros Hne Hv.
  destruct (space_then_value
              (Re.match_here [Re.Plus (Re.Except rbracket); Re.Lit [rbracket]])
              v t) as (w & g & E & Hw & Hwg); try done.
  { intros c v'. apply value_then_bracket. }
  unfold capture_re. cbn [Re.match_here]. rewrite after_prefix_app.
  cbn [Re.match_here] in E. rewrite E.
  eexists. split; [done|]. cbn. rewrite <- Hwg. by rewrite strip_lstrip_all.
Qed.

(** *** Scanning over text without an opening bracket *)

Lemma not_lbracket c s :
  has_char lbracket (c :: s) = false -> c <> lbracket.
Proof.
  rewrite has_char_cons. intros [Hc _]%orb_false_iff.
  apply N.eqb_neq in Hc. congruence.
Qed.

Lemma search_skip k u r :
  has_char lbracket u = false ->
  Re.search (capture_re k) (u ++ r) = Re.search (capture_re k) r.
Proof.
  induction u as [|c u IH]; [done|]. intros Hu.
  cbn [app Re.search].
  rewrite capture_no_prefix
    by (eapply after_tag_prefix_other, not_lbracket, Hu).
  apply IH. rewrite has_char_cons in Hu. by apply orb_false_iff in Hu as [_ ?].
Qed.

Lemma sub_skip_text k u r :
  has_char lbracket u = false ->
  Re.sub (delete_re k) (u ++ r) = u ++ Re.sub (delete_re k) r.
Proof.
  induction u as [|c u IH]; [done|]. intros Hu.
  cbn [app]. rewrite sub_skip.
  - rewrite IH; [done|].
    rewrite has_char_cons in Hu. by apply orb_false_iff in Hu as [_ ?].
  - eapply delete_no_prefix, after_tag_prefix_other, not_lbracket, Hu.
Qed.

Lemma sub_text k u :
  has_char lbracket u = false -> Re.sub (delete_re k) u = u.
Proof.
  intros Hu. rewrite <- (app_nil_r u) at 1.
  by rewrite sub_skip_text, sub_nil, app_nil_r.
Qed.

Lemma search_text k u :
  has_char lbracket u = false -> Re.search (capture_re k) u = None.
Proof.
  intros Hu. rewrite <- (app_nil_r u). rewrite search_skip by done.
  cbn [Re.search]. by rewrite capture_no_prefix by apply after_tag_prefix_nil.
Qed.

(** *** Messages without a complete tag *)

Lemma has_tag_cons k c s :
  has_tag k (c :: s) =
    match after_prefix (tag_prefix k) (c :: s) with
    | Some r => has_char rbracket r
    | None => false
    end || has_tag k s.
Proof. done. Qed.

Lemma no_tag_here k s :
  has_tag k s = false ->
  Re.match_here (capture_re k) s = None /\
  Re.match_here (delete_re k) s = None.
Proof.
  intros H. destruct (after_prefix (tag_prefix k) s) as [r|] eqn:E.
  - assert (has_char rbracket r = false) as Hr.
    { destruct s; cbn [has_tag] in H; rewrite E in H;
        by apply orb_false_iff in H as [? _]. }
    apply after_prefix_Some in E as ->.
    split; [by apply capture_unclosed | by apply delete_unclosed].
  - split; [by apply capture_no_prefix | by apply delete_no_prefix].
Qed.

Lemma no_tag_search k s :
  has_tag k s = false -> Re.search (capture_re k) s = None.
Proof.
  induction s as [|c s IH]; intros H; cbn [Re.search];
    destruct (no_tag_here k _ H) as [-> _]; [done|].
  apply IH. rewrite has_tag_cons in H. by apply orb_false_iff in H as [_ ?].
Qed.

Lemma no_tag_sub k s :
  has_tag k s = false -> Re.sub (delete_re k) s = s.
Proof.
  induction s as [|c s IH]; intros H; [apply sub_nil|].
  destruct (no_tag_here k _ H) as [_ Hd]. rewrite (sub_skip _ _ _ Hd).
  f_equal. apply IH.
  rewrite has_tag_cons in H. by apply orb_false_iff in H as [_ ?].
Qed.

Lemma no_prefix_no_tag k s :
  contains (tag_prefix k) s = false -> has_tag k s = false.
Proof.
  induction s as [|c s IH]; cbn [contains has_tag].
  - by destruct (after_prefix _ _).
  - destruct (after_prefix _ _); [done|]. intros H. by rewrite IH.
Qed.

(** ** The extractor *)

Lemma extract_tag_value k message :
  tag_value k message =
    match Re.search (capture_re k) message with
    | Some m => PStr (strip (Re.piece_text m 2))
    | None => PNone
    end.
Proof.
  unfold tag_value, extract_context_from_message, capture, dict_get.
  destruct k; cbn [field];
    destruct (Re.search (capture_re SESSION_ID) message),
             (Re.search (capture_re PATH) message),
             (Re.search (capture_re BOT_ID) message);
    by simplify_map_eq.
Qed.

Lemma extract_clean message :
  clean_message message =
    PStr (strip (Re.sub (delete_re BOT_ID) (Re.sub (delete_re PATH)
                   (Re.sub (delete_re SESSION_ID) message)))).
Proof.
  unfold clean_message, extract_context_from_message, dict_get.
  by simplify_map_eq.
Qed.

(** The first end-to-end scenario of the specification. *)
Example extract_tagged_booking :
  let c := extract_context_from_message
             (str "[SESSION_ID: s1] [BOT_ID: fp01] book me in") in
  (dict_get c "session_id", dict_get c "path", dict_get c "bot_id",
   dict_get c "clean_message")
  = (PStr (str "s1"), PNone, PStr (str "fp01"), PStr (str "book me in")).
Proof. by vm_compute. Qed.

(** ** Well-formed messages *)

Lemma tag_prefix_split k :
  exists l, tag_prefix k = lbracket :: l /\ has_char lbracket l = false.
Proof. destruct k; eexists; split; reflexivity. Qed.

Lemma key_eqb_eq a b : key_eqb a b = true <-> a = b.
Proof. by destruct a, b. Qed.

Lemma prefix_mismatch k k' x :
  key_eqb k' k = false ->
  after_prefix (tag_prefix k) (tag_prefix k' ++ x) = None.
Proof. by destruct k, k'. Qed.

Lemma length_lstrip_by p s : length (lstrip_by p s) <= length s.
Proof.
  induction s as [|c s IH]; simpl; [done|]. destruct (p c); simpl; lia.
Qed.

Lemma render_cons sg segs :
  render (sg :: segs) =
    tag_prefix (seg_key sg) ++ seg_value sg ++ rbracket :: seg_text sg ++
    render segs.
Proof.
  unfold render, render_segment. cbn [List.map concat].
  by rewrite <- !app_assoc.
Qed.

Lemma render_clean_start segs : clean_start isspace (render segs) = true.
Proof.
  destruct segs as [|sg segs]; [done|]. rewrite render_cons.
  by destruct (tag_prefix_split (seg_key sg)) as (l & -> & _).
Qed.

Lemma segment_ok_parts sg :
  segment_ok sg = true ->
  has_char lbracket (seg_value sg) = false /\
  has_char rbracket (seg_value sg) = false /\
  has_char lbracket (seg_text sg) = false.
Proof.
  unfold segment_ok, bracket_free.
  by destruct (has_char lbracket (seg_value sg)),
              (has_char rbracket (seg_value sg)),
              (has_char lbracket (seg_text sg)).
Qed.

Lemma well_formed_parts t0 segs :
  well_formed t0 segs = true ->
  has_char lbracket t0 = false /\ forallb segment_ok segs = true.
Proof.
  unfold well_formed. by destruct (has_char lbracket t0).
Qed.

Lemma absorbed_no_lbracket k segs :
  forallb segment_ok segs = true -> has_char lbracket (absorbed k segs) = false.
Proof.
  induction segs as [|sg segs IH]; [done|]. cbn [forallb absorbed].
  intros [Hsg Hsegs]%andb_true_iff.
  destruct (key_eqb _ _); [|done].
  rewrite has_char_app, IH by done.
  destruct (segment_ok_parts _ Hsg) as (_ & _ & Ht).
  by rewrite has_char_lstrip_by.
Qed.

Lemma absorbed_clean_start k segs :
  clean_start isspace (absorbed k segs) = true.
Proof.
  induction segs as [|sg segs IH]; [done|]. cbn [absorbed].
  destruct (key_eqb _ _); [|done].
  pose proof (lstrip_by_clean isspace (seg_text sg)) as H.
  by destruct (lstrip_by isspace (seg_text sg)).
Qed.

Lemma remaining_ok k segs :
  forallb segment_ok segs = true ->
  forallb segment_ok (remaining k segs) = true.
Proof.
  induction segs as [|sg segs IH]; [done|]. cbn [forallb remaining].
  intros [Hsg Hsegs]%andb_true_iff.
  destruct (key_eqb _ _); [auto|].
  cbn [forallb]. rewrite IH by done.
  destruct (segment_ok_parts _ Hsg) as (Hv1 & Hv2 & Ht).
  unfold segment_ok, bracket_free. cbn [seg_value seg_text].
  by rewrite has_char_app, Hv1, Hv2, Ht, absorbed_no_lbracket.
Qed.

Lemma text_of_remaining k segs :
  absorbed k segs ++ text_of (remaining k segs) = text_of segs.
Proof.
  unfold text_of.
  induction segs as [|sg segs IH]; [done|]. cbn [absorbed remaining].
  destruct (key_eqb _ _); cbn [List.map concat seg_text app].
  - by rewrite <- app_assoc, IH.
  - rewrite lstrip_by_app by apply absorbed_clean_start.
    by rewrite <- app_assoc, IH.
Qed.

Lemma remaining_keys k segs :
  List.map seg_key (remaining k segs) =
  List.filter (fun k' => negb (key_eqb k' k)) (List.map seg_key segs).
Proof.
  induction segs as [|sg segs IH]; [done|]. cbn [remaining List.map List.filter].
  destruct (key_eqb _ _); cbn [negb List.map seg_key]; by rewrite IH.
Qed.

Lemma remaining_all segs :
  remaining BOT_ID (remaining PATH (remaining SESSION_ID segs)) = [].
Proof.
  apply (map_eq_nil seg_key). rewrite !remaining_keys.
  induction (List.map seg_key segs) as [|k ks IH]; [done|].
  by destruct k.
Qed.

(** One deleting pass over a well-formed message. *)
Lemma sub_render k segs :
  forallb segment_ok segs = true ->
  Re.sub (delete_re k) (render segs)
  = absorbed k segs ++ render (remaining k segs).
Proof.
  induction segs as [|sg segs IH]; [intros _; apply sub_nil|].
  cbn [forallb]. intros [Hsg Hsegs]%andb_true_iff.
  destruct (segment_ok_parts _ Hsg) as (Hv1 & Hv2 & Ht).
  rewrite render_cons. cbn [absorbed remaining].
  destruct (tag_prefix_split (seg_key sg)) as (l & El & Hl).
  destruct (key_eqb (seg_key sg) k) eqn:Ek.
  - apply key_eqb_eq in Ek as <-.
    pose proof (delete_tag (seg_key sg) (seg_value sg)
                  (seg_text sg ++ render segs) Hv2) as Hm.
    rewrite El in *. cbn [app] in *.
    rewrite (sub_hit _ _ _ _ Hm).
    + cbn [Re.remainder snd].
      rewrite lstrip_by_app by apply render_clean_start.
      rewrite sub_skip_text by by apply has_char_lstrip_by.
      by rewrite IH, app_assoc.
    + cbn [Re.remainder snd length].
      pose proof (length_lstrip_by isspace (seg_text sg ++ render segs)).
      rewrite !length_app. cbn [length]. lia.
  - pose proof (prefix_mismatch k (seg_key sg)
        (seg_value sg ++ rbracket :: seg_text sg ++ render segs) Ek) as Hm.
    rewrite render_cons, El in *. cbn [app] in *.
    rewrite (sub_skip _ _ _ (delete_no_prefix _ _ Hm)).
    replace (l ++ seg_value sg ++ rbracket :: seg_text sg ++ render segs)
      with ((l ++ seg_value sg ++ rbracket :: seg_text sg) ++ render segs)
      by (by rewrite <- !app_assoc).
    rewrite sub_skip_text, IH by
      (done || by rewrite !has_char_app, has_char_cons, Hl, Hv1, Ht).
    cbn [seg_key seg_value seg_text]. rewrite El.
    cbn [app]. by rewrite <- !app_assoc.
Qed.

Lemma clean_well_formed t0 segs :
  well_formed t0 segs = true ->
  clean_message (t0 ++ render segs) = PStr (strip (t0 ++ text_of segs)).
Proof.
  intros [Ht0 Hsegs]%well_formed_parts. rewrite extract_clean.
  pose proof (remaining_ok SESSION_ID _ Hsegs) as H1.
  pose proof (remaining_ok PATH _ H1) as H2.
  rewrite sub_skip_text, sub_render by done.
  rewrite !app_assoc.
  rewrite sub_skip_text, sub_render
    by (done || by rewrite has_char_app, Ht0, absorbed_no_lbracket).
  rewrite !app_assoc.
  rewrite sub_skip_text, sub_render
    by (done || by rewrite !has_char_app, Ht0, !absorbed_no_lbracket).
  rewrite remaining_all. cbn [render List.map concat]. rewrite app_nil_r.
  rewrite <- !app_assoc. do 3 f_equal.
  rewrite <- (text_of_remaining SESSION_ID segs).
  rewrite <- (text_of_remaining PATH (remaining SESSION_ID segs)).
  rewrite <- (text_of_remaining BOT_ID (remaining PATH _)).
  rewrite remaining_all. cbn. by rewrite app_nil_r.
Qed.

Lemma search_past_segment k sg r :
  segment_ok sg = true ->
  Re.match_here (capture_re k) (render_segment sg ++ r) = None ->
  Re.search (capture_re k) (render_segment sg ++ r)
  = Re.search (capture_re k) r.
Proof.
  intros Hsg Hm. destruct (segment_ok_parts _ Hsg) as (Hv1 & Hv2 & Ht).
  unfold render_segment in *.
  destruct (tag_prefix_split (seg_key sg)) as (l & El & Hl).
  rewrite El in *. cbn [app Re.search] in *. rewrite Hm.
  apply search_skip.
  by rewrite !has_char_app, has_char_cons, Hl, Hv1, Ht.
Qed.

Lemma tag_value_well_formed k t0 segs :
  well_formed t0 segs = true ->
  tag_value k (t0 ++ render segs) = captured k segs.
Proof.
  intros [Ht0 Hsegs]%well_formed_parts.
  rewrite extract_tag_value, search_skip by done. clear t0 Ht0.
  induction segs as [|sg segs IH].
  - cbn [render List.map concat Re.search captured].
    by rewrite capture_no_prefix by apply after_tag_prefix_nil.
  - cbn [forallb] in Hsegs. apply andb_true_iff in Hsegs as [Hsg Hsegs].
    destruct (segment_ok_parts _ Hsg) as (Hv1 & Hv2 & Ht).
    cbn [captured]. change (render (sg :: segs))
      with (render_segment sg ++ render segs).
    destruct (key_eqb (seg_key sg) k) eqn:Ek; cbn [andb].
    + apply key_eqb_eq in Ek as <-. case_bool_decide as Hv; cbn [negb].
      * rewrite search_past_segment; [auto|done|].
        unfold render_segment. rewrite Hv, <- !app_assoc.
        apply capture_empty.
      * destruct (capture_tag (seg_key sg) (seg_value sg)
                    (seg_text sg ++ render segs) Hv Hv2) as (m & Hm & Hg).
        unfold render_segment. rewrite <- !app_assoc. cbn [app].
        destruct (tag_prefix (seg_key sg) ++ _) eqn:E;
          cbn [Re.search]; by rewrite Hm, Hg.
    + rewrite search_past_segment; [auto|done|].
      unfold render_segment. rewrite <- !app_assoc.
      by apply capture_no_prefix, prefix_mismatch.
Qed.

(** ** Paths *)


Lemma is_slash_true c : is_slash c = true -> c = slash.
Proof.
  unfold is_slash, is_one_of. cbn [existsb]. rewrite orb_false_r.
  apply N.eqb_eq.
Qed.

Lemma is_slash_false c : is_slash c = false -> (c =? slash)%N = false.
Proof. unfold is_slash, is_one_of. cbn [existsb]. by rewrite orb_false_r. Qed.

Lemma split_nonempty sep s : split sep s <> [].
Proof.
  destruct s as [|c s]; [done|]. cbn [split].
  destruct (c =? sep)%N; [done|]. by destruct (split sep s).
Qed.

Lemma split_snoc_sep sep s : split sep (s ++ [sep]) = split sep s ++ [[]].
Proof.
  induction s as [|c s IH]; cbn [app split].
  - by rewrite N.eqb_refl.
  - rewrite IH. destruct (c =? sep)%N; [done|].
    pose proof (split_nonempty sep s). by destruct (split sep s).
Qed.

Lemma split_snoc_other sep s c :
  (c =? sep)%N = false ->
  split sep (s ++ [c]) =
    removelast (split sep s) ++ [List.last (split sep s) [] ++ [c]].
Proof.
  intros Hc. induction s as [|x s IH]; cbn [app split].
  - by rewrite Hc.
  - rewrite IH. pose proof (split_nonempty sep s) as Hne.
    destruct (x =? sep)%N.
    + by destruct (split sep s).
    + destruct (split sep s) as [|seg [|seg' segs]]; done.
Qed.

Lemma last_nonempty_snoc_sep s :
  last_nonempty_segment (s ++ [slash]) = last_nonempty_segment s.
Proof.
  unfold last_nonempty_segment.
  rewrite split_snoc_sep, List.filter_app. cbn. by rewrite app_nil_r.
Qed.

Lemma last_nonempty_rstrip s :
  last_nonempty_segment (rstrip_by is_slash s) = last_nonempty_segment s.
Proof.
  destruct (rstrip_by_split is_slash s) as (w & Hs & Hw).
  rewrite Hs at 2. generalize (rstrip_by is_slash s) as t. clear Hs.
  induction w as [|c w IH]; intros t; [by rewrite app_nil_r|].
  cbn [forallb] in Hw. apply andb_true_iff in Hw as [Hc Hw].
  apply is_slash_true in Hc as ->.
  change (t ++ slash :: w) with (t ++ [slash] ++ w).
  by rewrite app_assoc, <- (IH Hw), last_nonempty_snoc_sep.
Qed.

Lemma last_nonempty_lstrip s :
  last_nonempty_segment (lstrip_by is_slash s) = last_nonempty_segment s.
Proof.
  induction s as [|c s IH]; [done|]. cbn [lstrip_by].
  destruct (is_slash c) eqn:E; [|done].
  apply is_slash_true in E as ->. rewrite IH.
  unfold last_nonempty_segment. cbn [split]. by rewrite N.eqb_refl.
Qed.

(** After stripping, the last segment is non-empty unless nothing is
    left. *)
Lemma last_segment_stripped s :
  List.last (split slash (rstrip_by is_slash s)) []
  = last_nonempty_segment (rstrip_by is_slash s).
Proof.
  unfold rstrip_by.
  pose proof (lstrip_by_clean is_slash (rev s)) as Hc.
  destruct (lstrip_by is_slash (rev s)) as [|c r]; [done|].
  cbn [clean_start rev] in *. apply negb_true_iff, is_slash_false in Hc.
  unfold last_nonempty_segment.
  rewrite split_snoc_other by done.
  rewrite List.filter_app, !last_last. cbn [List.filter].
  case_bool_decide as E; [by destruct (List.last _ _)|].
  cbn [negb]. by rewrite last_last.
Qed.

Lemma get_bot_id_from_path_str p :
  p <> [] ->
  get_bot_id_from_path (PStr p)
  = List.last (split slash (strip_chars [slash] p)) [].
Proof. by destruct p. Qed.

Lemma get_bot_id_last_nonempty p :
  get_bot_id_from_path (PStr p) = last_nonempty_segment p.
Proof.
  destruct p as [|c p]; [done|]. rewrite get_bot_id_from_path_str by done.
  unfold strip_chars. fold is_slash.
  by rewrite last_segment_stripped, last_nonempty_rstrip, last_nonempty_lstrip.
Qed.

(** ** Context resolution in the tools *)

Lemma has_tag_nil k : has_tag k [] = false.
Proof. by destruct k. Qed.

Lemma gate_false_no_tag k q : gate q = false -> has_tag k q = false.
Proof.
  unfold gate. destruct q as [|c q]; [intros _; apply has_tag_nil|].
  cbn [truthy andb]. intros H. apply no_prefix_no_tag.
  destruct k;
    by destruct (contains (tag_prefix SESSION_ID) _),
                (contains (tag_prefix PATH) _),
                (contains (tag_prefix BOT_ID) _).
Qed.

Lemma tag_value_no_tag k q : has_tag k q = false -> tag_value k q = PNone.
Proof. intros H. by rewrite extract_tag_value, no_tag_search. Qed.

Lemma clean_message_no_tag q :
  has_tag SESSION_ID q = false -> has_tag PATH q = false ->
  has_tag BOT_ID q = false ->
  clean_message q = PStr (strip q).
Proof.
  intros H1 H2 H3. rewrite extract_clean.
  by rewrite (no_tag_sub SESSION_ID q), (no_tag_sub PATH q),
             (no_tag_sub BOT_ID q).
Qed.

Lemma dict_get_or_clean q dflt :
  dict_get_or (extract_context_from_message q) "clean_message" dflt
  = clean_message q.
Proof.
  unfold clean_message, dict_get_or, dict_get, extract_context_from_message.
  by simplify_map_eq.
Qed.

Lemma rag_context_eq q s b :
  rag_context q s b =
    (py_or (tag_value SESSION_ID q) s,
     (let b' := py_or (tag_value BOT_ID q) b in
      if negb (truthy b') && truthy (tag_value PATH q)
      then PStr (get_bot_id_from_path (tag_value PATH q))
      else b'),
     if gate q then clean_message q else PStr q).
Proof.
  unfold rag_context. destruct (gate q) eqn:G.
  - by rewrite dict_get_or_clean.
  - rewrite !tag_value_no_tag by by apply gate_false_no_tag. cbn [py_or truthy].
    change (dict_get ∅ "path") with PNone. cbn [truthy].
    by rewrite andb_false_r.
Qed.

Lemma form_context_eq q s b :
  form_context q s b =
    (let s' := py_or (tag_value SESSION_ID q) s in
     if truthy s' then s' else PStr fallback_session_id,
     py_or (tag_value BOT_ID q) b).
Proof.
  unfold form_context, tag_value. destruct (gate q) eqn:G.
  - cbv beta iota zeta. cbn [field].
    by destruct (truthy (py_or _ s)).
  - fold (tag_value SESSION_ID q) (tag_value BOT_ID q).
    rewrite !tag_value_no_tag by by apply gate_false_no_tag.
    cbn [py_or truthy]. by destruct (truthy s).
Qed.

Lemma rag_tenant_eq q s b :
  rag_tenant q s b =
    if truthy (tag_value BOT_ID q) then tag_value BOT_ID q
    else if truthy b then b
    else if truthy (tag_value PATH q)
         then PStr (get_bot_id_from_path (tag_value PATH q))
    else b.
Proof.
  unfold rag_tenant. rewrite rag_context_eq. cbn [fst snd]. unfold py_or.
  destruct (truthy (tag_value BOT_ID q)) eqn:E1; cbn zeta.
  - by rewrite E1.
  - destruct (truthy b) eqn:E2; [done|]. cbn [negb andb].
    by destruct (truthy (tag_value PATH q)).
Qed.

Lemma rag_tenant_precedence q s b :
  same_tenant (rag_tenant q s b) (tenant_precedence q b).
Proof.
  rewrite rag_tenant_eq. unfold tenant_precedence, same_tenant.
  destruct (truthy (tag_value BOT_ID q)); [by left|].
  destruct (truthy b) eqn:E; [by left|].
  destruct (truthy (tag_value PATH q)); [by left|by right].
Qed.

Lemma form_session_str q s b :
  exists sid, form_session q s b = PStr sid /\ sid <> [].
Proof.
  unfold form_session. rewrite form_context_eq. cbn [fst].
  destruct (truthy _) eqn:E.
  - destruct (py_or _ _) as [|[|c sid]]; try done. by eexists.
  - by eexists.
Qed.

(** What [has_tag] decides: the prefix of the tag occurs in the message,
    with a closing bracket somewhere after it. *)
Lemma has_char_split c s :
  has_char c s = true -> exists v post, s = v ++ c :: post.
Proof.
  induction s as [|x s IH]; [done|]. rewrite has_char_cons.
  destruct (c =? x)%N eqn:E.
  - apply N.eqb_eq in E as ->. intros _. by exists [], s.
  - intros [v [post ->]]%IH. by exists (x :: v), post.
Qed.

Lemma has_tag_spec k s :
  has_tag k s = true <->
  exists pre v post, s = pre ++ tag_prefix k ++ v ++ rbracket :: post.
Proof.
  split.
  - induction s as [|c s IH]; [by rewrite has_tag_nil|].
    rewrite has_tag_cons. intros [H|H]%orb_true_iff.
    + destruct (after_prefix _ _) as [r|] eqn:E; [|done].
      apply after_prefix_Some in E as ->.
      destruct (has_char_split _ _ H) as (v & post & ->).
      by exists [], v, post.
    + destruct (IH H) as (pre & v & post & ->). by exists (c :: pre), v, post.
  - intros (pre & v & post & ->).
    induction pre as [|c pre IH].
    + pose proof (after_prefix_app (tag_prefix k) (v ++ rbracket :: post)) as E.
      cbn [app]. destruct (tag_prefix k ++ v ++ rbracket :: post) eqn:Es.
      * destruct (tag_prefix_split k) as (l & El & _). by rewrite El in Es.
      * rewrite has_tag_cons, E.
        by rewrite has_char_app, has_char_cons, N.eqb_refl, orb_true_r.
    + cbn [app]. by rewrite has_tag_cons, IH, orb_true_r.
Qed.

(** *** Tags in well-formed messages *)

Lemma text_of_app a b : text_of (a ++ b) = text_of a ++ text_of b.
Proof. unfold text_of. by rewrite List.map_app, concat_app. Qed.

Lemma text_of_no_lbracket segs :
  forallb segment_ok segs = true -> has_char lbracket (text_of segs) = false.
Proof.
  unfold text_of. induction segs as [|sg segs IH]; [done|].
  cbn [forallb List.map concat]. intros [Hsg Hsegs]%andb_true_iff.
  destruct (segment_ok_parts _ Hsg) as (_ & _ & Ht).
  by rewrite has_char_app, has_char_lstrip_by, IH.
Qed.

Lemma captured_skip k before rest :
  (forall sg, In sg before -> seg_key sg <> k) ->
  captured k (before ++ rest) = captured k rest.
Proof.
  induction before as [|sg before IH]; [done|]. intros H.
  cbn [app captured].
  destruct (key_eqb (seg_key sg) k) eqn:E.
  - apply key_eqb_eq in E. destruct (H sg); [by left | done].
  - apply IH. intros sg' Hin. apply H. by right.
Qed.

Lemma captured_none k segs :
  (forall sg, In sg segs -> seg_key sg <> k) -> captured k segs = PNone.
Proof.
  intros H. rewrite <- (app_nil_r segs). by rewrite captured_skip.
Qed.

(** Two runs of the tools: the tagged booking scenario of the
    specification, and a world where the clock and the backend raise. *)
Example booking_scenario :
  book_appointment_tool sample_config quiet_world
    (str "[SESSION_ID: s1] [BOT_ID: fp01] book me in") PNone PNone
  = Ok (Json.dumps
      [("reply", Json.JStr (str "I'm opening the appointment booking form for you. Please fill it out to book your appointment."));
       ("form_url",
        Json.JStr (str "https://forms.example/book?form=2&session_id=s1&ts=1730000000123"));
       ("success", Json.JBool true);
       ("session_id", Json.JStr (str "s1"))]).
Proof. by vm_compute. Qed.

Example faults_in_a_broken_world :
  book_appointment_tool sample_config broken_world (str "book me in") PNone PNone
  = Ok (Json.dumps
      [("reply", Json.JStr (str "Sorry, I couldn't open the booking form at this moment."));
       ("success", Json.JBool false);
       ("error", Json.JStr (str "clock unavailable"))])
  /\ rag_retrieval_tool broken_world (str "opening hours") PNone PNone
  = Ok (str "Error retrieving context from Pinecone: connection timed out").
Proof. by vm_compute. Qed.

(* ===================================================================== *)
(** * Further properties of the code                                     *)
(* ===================================================================== *)

(** ** The matcher reports what it consumed *)

Lemma greedy_sound k cont s w m :
  Re.greedy k cont s = Some (w, m) ->
  exists t, s = w ++ t /\ forallb (Re.in_class k) w = true /\ cont t = Some m.
Proof.
  revert w m. induction s as [|c s IH]; intros w m; cbn [Re.greedy].
  - destruct (cont []) eqn:E; [|done]. intros [= <- <-]. by exists [].
  - assert (match cont (c :: s) with
            | Some m0 => Some ([], m0)
            | None => None
            end = Some (w, m) ->
            exists t, c :: s = w ++ t /\ forallb (Re.in_class k) w = true
                      /\ cont t = Some m) as Hstop.
    { destruct (cont (c :: s)) eqn:E; [|done]. intros [= <- <-].
      by exists (c :: s). }
    destruct (Re.in_class k c) eqn:Ec; [|done].
    destruct (Re.greedy k cont s) as [[w' m']|] eqn:Eg; [|done].
    intros [= <- <-]. destruct (IH _ _ eq_refl) as (t & -> & Hw & Ht).
    exists t. cbn [forallb app]. by rewrite Ec, Hw.
Qed.

Lemma match_here_sound p s m :
  Re.match_here p s = Some m ->
  s = Re.consumed m ++ Re.remainder m /\ Forall2 conforms p (fst m).
Proof.
  revert s m. induction p as [|pc p IH]; intros s m; cbn [Re.match_here].
  - intros [= <-]. split; [done | constructor].
  - destruct pc as [l|k|k].
    + destruct (after_prefix l s) as [s'|] eqn:E; [|done].
      apply after_prefix_Some in E as ->.
      destruct (Re.match_here p s') as [m'|] eqn:Em; [|done].
      intros [= <-]. destruct (IH _ _ Em) as [-> Hf].
      split; [|constructor; [constructor | done]].
      unfold Re.consumed, Re.remainder, Re.keep. cbn [fst snd concat].
      by rewrite <- app_assoc.
    + destruct (Re.greedy k (Re.match_here p) s) as [[w m']|] eqn:Eg; [|done].
      intros [= <-].
      destruct (greedy_sound _ _ _ _ _ Eg) as (t & -> & Hw & Ht).
      destruct (IH _ _ Ht) as [-> Hf].
      split; [|constructor; [by constructor | done]].
      unfold Re.consumed, Re.remainder, Re.keep. cbn [fst snd concat].
      by rewrite <- app_assoc.
    + destruct s as [|c s]; [done|].
      destruct (Re.in_class k c) eqn:Ec; [|done].
      destruct (Re.greedy k (Re.match_here p) s) as [[w m']|] eqn:Eg; [|done].
      intros [= <-].
      destruct (greedy_sound _ _ _ _ _ Eg) as (t & -> & Hw & Ht).
      destruct (IH _ _ Ht) as [-> Hf].
      split.
      * unfold Re.consumed, Re.remainder, Re.keep. cbn [fst snd concat].
        by rewrite <- app_assoc.
      * constructor; [|done]. constructor; [done|].
        cbn [forallb]. by rewrite Ec, Hw.
Qed.

Lemma search_sound p s m :
  Re.search p s = Some m ->
  exists pre t, s = pre ++ t /\ Re.match_here p t = Some m.
Proof.
  induction s as [|c s IH]; cbn [Re.search].
  - destruct (Re.match_here p []) eqn:E; [|done]. intros [= <-].
    by exists [], [].
  - destruct (Re.match_here p (c :: s)) eqn:E.
    + intros [= <-]. by exists [], (c :: s).
    + intros (pre & t & -> & Ht)%IH. by exists (c :: pre), t.
Qed.

Lemma search_complete p pre t m :
  Re.match_here p t = Some m -> Re.search p (pre ++ t) <> None.
Proof.
  intros Hm. induction pre as [|c pre IH]; cbn [app].
  - destruct t; cbn [Re.search]; by rewrite Hm.
  - cbn [Re.search]. by destruct (Re.match_here p (c :: pre ++ t)).
Qed.

Lemma sub_stuck p c s m :
  Re.match_here p (c :: s) = Some m ->
  ~ length (Re.remainder m) < length (c :: s) ->
  Re.sub p (c :: s) = c :: Re.sub p s.
Proof.
  intros H Hn. simp sub. rewrite H. simpl.
  destruct (lt_dec _ _) as [Hlt|?]; [by destruct Hn | done].
Qed.

Lemma sub_sublist p s : Re.sub p s `sublist_of` s.
Proof.
  remember (length s) as n eqn:Hn. revert s Hn.
  induction n as [n IH] using lt_wf_ind. intros s ->.
  destruct s as [|c s]; [by rewrite sub_nil|].
  destruct (Re.match_here p (c :: s)) as [m|] eqn:Em.
  - destruct (lt_dec (length (Re.remainder m)) (length (c :: s))) as [Hlt|Hn].
    + rewrite (sub_hit _ _ _ _ Em Hlt).
      destruct (match_here_sound _ _ _ Em) as [Hs _]. rewrite Hs.
      apply sublist_inserts_l. by eapply IH.
    + rewrite (sub_stuck _ _ _ _ Em Hn). apply sublist_skip.
      eapply IH; [|done]. cbn [length]. lia.
  - rewrite (sub_skip _ _ _ Em). apply sublist_skip.
    eapply IH; [|done]. cbn [length]. lia.
Qed.

Lemma lstrip_by_sublist p s : lstrip_by p s `sublist_of` s.
Proof.
  rewrite <- (take_by_lstrip_by p s) at 2. by apply sublist_inserts_l.
Qed.

Lemma rstrip_by_sublist p s : rstrip_by p s `sublist_of` s.
Proof.
  destruct (rstrip_by_split p s) as (w & Hs & _). rewrite Hs at 2.
  by apply sublist_inserts_r.
Qed.

Lemma strip_sublist s : strip s `sublist_of` s.
Proof.
  unfold strip. etrans; [apply rstrip_by_sublist | apply lstrip_by_sublist].
Qed.

(** ** What the extractor reads, on any message *)

Lemma has_char_all_space w :
  forallb isspace w = true -> has_char rbracket w = false.
Proof.
  induction w as [|c w IH]; [done|]. cbn [forallb].
  intros [Hc Hw]%andb_true_iff.
  by rewrite has_char_cons, N.eqb_sym, isspace_rbracket, IH.
Qed.

Lemma has_char_except c g :
  forallb (Re.in_class (Re.Except c)) g = true -> has_char c g = false.
Proof.
  induction g as [|x g IH]; [done|]. cbn [forallb Re.in_class].
  intros [Hx Hg]%andb_true_iff. apply negb_true_iff in Hx.
  by rewrite has_char_cons, N.eqb_sym, Hx, IH.
Qed.

(** A match of the capturing pattern, taken apart. *)
Lemma capture_match_parts k t m :
  Re.match_here (capture_re k) t = Some m ->
  exists raw post,
    t = tag_prefix k ++ raw ++ rbracket :: post /\ raw <> [] /\
    has_char rbracket raw = false /\
    strip (Re.piece_text m 2) = strip raw.
Proof.
  intros Hm. destruct (match_here_sound _ _ _ Hm) as [Ht Hf].
  destruct m as [texts post]. unfold capture_re in Hf. cbn [fst] in Hf.
  clear Hm. revert Ht.
  inversion Hf as [|? x1 ? l1 H1 Hf1]; subst.
  inversion Hf1 as [|? x2 ? l2 H2 Hf2]; subst.
  inversion Hf2 as [|? x3 ? l3 H3 Hf3]; subst.
  inversion Hf3 as [|? x4 ? l4 H4 Hf4]; subst.
  inversion Hf4; subst.
  inversion H1; subst. inversion H2 as [|? ? Hw|]; subst.
  inversion H3 as [| |? ? Hne Hg]; subst. inversion H4; subst.
  intros Ht.
  exists (x2 ++ x3), post. split; [|split; [|split]].
  - rewrite Ht. unfold Re.consumed, Re.remainder. cbn [fst snd concat app].
    by rewrite <- !app_assoc.
  - by destruct x2, x3.
  - by rewrite has_char_app, has_char_all_space, has_char_except.
  - cbn. by rewrite strip_lstrip_all.
Qed.

Lemma after_prefix_inside l a t r :
  has_char lbracket l = false ->
  after_prefix l (a ++ lbracket :: t) = Some r ->
  exists r', after_prefix l a = Some r'.
Proof.
  revert a. induction l as [|x l IH]; intros a Hl; [by exists a|].
  rewrite has_char_cons in Hl. apply orb_false_iff in Hl as [Hx Hl].
  destruct a as [|y a]; cbn [app after_prefix].
  - rewrite N.eqb_sym in Hx. by rewrite Hx.
  - destruct (x =? y)%N; [by apply IH | done].
Qed.

Lemma contains_cons sub c s :
  contains sub (c :: s) = false ->
  after_prefix sub (c :: s) = None /\ contains sub s = false.
Proof. cbn [contains]. by destruct (after_prefix sub (c :: s)). Qed.

(** No occurrence of a tag prefix starts before a tag and runs into it. *)
Lemma no_prefix_before_tag k c pre t :
  contains (tag_prefix k) (c :: pre) = false ->
  after_prefix (tag_prefix k) (c :: pre ++ lbracket :: t) = None.
Proof.
  intros [Hc _]%contains_cons.
  destruct (tag_prefix_split k) as (l & El & Hl). rewrite El in *.
  cbn [after_prefix] in *. destruct (lbracket =? c)%N; [|done].
  destruct (after_prefix l (pre ++ lbracket :: t)) as [r|] eqn:E; [|done].
  destruct (after_prefix_inside _ _ _ _ Hl E) as [r' Hr']. congruence.
Qed.

Lemma search_first_tag k pre t m :
  contains (tag_prefix k) pre = false ->
  Re.match_here (capture_re k) (tag_prefix k ++ t) = Some m ->
  Re.search (capture_re k) (pre ++ tag_prefix k ++ t) = Some m.
Proof.
  intros Hpre Hm. destruct (tag_prefix_split k) as (l & El & Hl).
  induction pre as [|c pre IH]; cbn [app].
  - rewrite El in *. cbn [app Re.search] in *. by rewrite Hm.
  - cbn [Re.search]. rewrite capture_no_prefix.
    + apply IH. by apply contains_cons in Hpre as [_ ?].
    + rewrite El. cbn [app]. rewrite <- El. by apply no_prefix_before_tag.
Qed.

(** ** Further properties of path derivation *)

Lemma split_segments_no_sep sep s :
  Forall (fun seg => has_char sep seg = false) (split sep s).
Proof.
  induction s as [|c s IH]; cbn [split]; [by repeat constructor|].
  destruct (c =? sep)%N eqn:E; [by constructor|].
  pose proof (split_nonempty sep s) as Hne.
  destruct (split sep s) as [|seg segs]; [done|].
  inversion IH as [|? ? Hseg Hsegs]; subst. constructor; [|done].
  by rewrite has_char_cons, N.eqb_sym, E, Hseg.
Qed.

Lemma last_Forall {A} (P : A -> Prop) l d :
  l <> [] -> Forall P l -> P (List.last l d).
Proof.
  induction l as [|x [|y l] IH]; [done| |].
  - intros _ H. by inversion H.
  - intros _ H. inversion H; subst. by apply IH.
Qed.

Lemma split_no_sep sep s : has_char sep s = false -> split sep s = [s].
Proof.
  induction s as [|c s IH]; [done|]. rewrite has_char_cons.
  intros [Hc Hs]%orb_false_iff. cbn [split].
  by rewrite N.eqb_sym, Hc, (IH Hs).
Qed.

Lemma join_cons sep x y (l : list (list N)) :
  Json.join sep (x :: y :: l) = x ++ sep ++ Json.join sep (y :: l).
Proof. done. Qed.

Lemma split_join sep s : Json.join [sep] (split sep s) = s.
Proof.
  induction s as [|c s IH]; [done|]. cbn [split].
  pose proof (split_nonempty sep s) as Hne.
  destruct (c =? sep)%N eqn:E.
  - apply N.eqb_eq in E as ->.
    destruct (split sep s) as [|seg segs]; [done|].
    by rewrite join_cons, IH.
  - destruct (split sep s) as [|seg [|seg' segs]]; [done| |].
    + cbn [Json.join] in *. by rewrite IH.
    + rewrite join_cons in *. by rewrite <- IH.
Qed.

(** The text before the last piece of a joined list is empty or ends with
    the separator. *)
Lemma join_last sep (l : list (list N)) :
  l <> [] ->
  exists pre, Json.join [sep] l = pre ++ List.last l []
              /\ (pre = [] \/ exists pre', pre = pre' ++ [sep]).
Proof.
  induction l as [|x [|y l] IH]; [done| |]; intros _.
  - exists []. split; [done | by left].
  - destruct (IH ltac:(done)) as (pre & Hj & Hpre).
    exists (x ++ [sep] ++ pre). split.
    + rewrite join_cons, Hj. change (List.last (x :: y :: l) [])
        with (List.last (y :: l) []).
      by rewrite <- !app_assoc.
    + right. destruct Hpre as [->|[pre' ->]].
      * exists x. by rewrite app_nil_r.
      * exists (x ++ [sep] ++ pre'). by rewrite <- !app_assoc.
Qed.

Lemma last_nonempty_segment_nil p :
  last_nonempty_segment p = [] <-> forallb is_slash p = true.
Proof.
  unfold last_nonempty_segment. induction p as [|c p IH]; [done|].
  cbn [split forallb]. destruct (c =? slash)%N eqn:E.
  - apply N.eqb_eq in E as ->. cbn [List.filter]. by rewrite IH.
  - assert (is_slash c = false) as ->.
    { unfold is_slash, is_one_of. cbn [existsb]. by rewrite E. }
    pose proof (split_nonempty slash p) as Hne.
    destruct (split slash p) as [|seg segs]; [done|].
    cbn [List.filter andb]. split; [|done].
    change (negb (bool_decide (c :: seg = []))) with true. cbn iota.
    intros H. exfalso.
    set (f := fun seg : list N => negb (bool_decide (seg = []))) in *.
    assert (Forall (fun x => x <> []) ((c :: seg) :: List.filter f segs)) as Hall.
    { constructor; [done|]. apply Forall_forall. intros x Hx.
      apply list_elem_of_In, filter_In in Hx as [_ Hx]. unfold f in Hx.
      by case_bool_decide. }
    by apply (last_Forall _ ((c :: seg) :: List.filter f segs) []
                ltac:(done) Hall).
Qed.

(** ** Further properties of the extractor and of context resolution *)

(** X1.  When the detection gate is closed the query holds no tag: the
    extractor would read no value for any key and would delete nothing.
    It would still trim the query, and this the tools skip with it: the
    retrieval tool keeps the query as it is, whitespace at its ends
    included, and the form tools keep their arguments. *)
Theorem closed_gate_hides_no_tag (query : list N) (k : key)
    (session_id bot_id : pyval) :
  gate query = false ->
  has_tag k query = false
  /\ tag_value k query = PNone
  /\ Re.sub (delete_re k) query = query
  /\ clean_message query = PStr (strip query)
  /\ rag_context query session_id bot_id = (session_id, bot_id, PStr query)
  /\ inputs_text (rag_request query session_id bot_id) = PStr query
  /\ form_context query session_id bot_id
     = (if truthy session_id then session_id else PStr fallback_session_id,
        bot_id).
Proof.
  intros H. pose proof (fun k => gate_false_no_tag k _ H) as Hk.
  assert (rag_context query session_id bot_id
          = (session_id, bot_id, PStr query)) as Hrag.
  { rewrite rag_context_eq, H, !tag_value_no_tag by done.
    cbn [py_or truthy]. by rewrite andb_false_r. }
  split; [done|]. split; [by apply tag_value_no_tag|].
  split; [by apply no_tag_sub|].
  split; [by apply clean_message_no_tag|].
  split; [done|].
  split; [by unfold rag_request; rewrite Hrag|].
  rewrite form_context_eq, !tag_value_no_tag by done.
  by cbn [py_or truthy].
Qed.

Lemma closed_gate_hides_no_tag_witness :
  has_tag PATH (str "  where is [the] office? ") = false
  /\ tag_value PATH (str "  where is [the] office? ") = PNone
  /\ Re.sub (delete_re PATH) (str "  where is [the] office? ")
     = str "  where is [the] office? "
  /\ clean_message (str "  where is [the] office? ")
     = PStr (strip (str "  where is [the] office? "))
  /\ rag_context (str "  where is [the] office? ") PNone PNone
     = (PNone, PNone, PStr (str "  where is [the] office? "))
  /\ inputs_text (rag_request (str "  where is [the] office? ") PNone PNone)
     = PStr (str "  where is [the] office? ")
  /\ form_context (str "  where is [the] office? ") PNone PNone
     = (if truthy PNone then PNone else PStr fallback_session_id, PNone).
Proof.
  apply (closed_gate_hides_no_tag (str "  where is [the] office? ") PATH
           PNone PNone).
  reflexivity.
Defined.

(** X2.  The session id of a form tool is the one of the SESSION_ID tag
    when it has a non-empty one, else the explicit argument when that is
    non-empty, else ["fallback-session-id"]; it is always a non-empty
    string, and does not depend on the tenant. *)
Theorem form_session_precedence (query : list N) (session_id bot_id : pyval) :
  form_session query session_id bot_id =
    (if truthy (tag_value SESSION_ID query) then tag_value SESSION_ID query
     else if truthy session_id then session_id
     else PStr (str "fallback-session-id"))
  /\ exists sid, form_session query session_id bot_id = PStr sid /\ sid <> [].
Proof.
  split; [|apply form_session_str].
  unfold form_session. rewrite form_context_eq. cbn [fst]. unfold py_or.
  destruct (truthy (tag_value SESSION_ID query)) eqn:E; [by rewrite E|].
  by destruct (truthy session_id) eqn:E'; rewrite ?E'.
Qed.

(** X3.  The cancelling and rescheduling tools ignore the tenant: their
    result is the same for every [bot_id] argument. *)
Theorem cancel_and_reschedule_ignore_the_tenant (cfg : config) (w : world)
    (query : list N) (session_id bot_id bot_id' : pyval) :
  cancel_appointment_tool cfg w query session_id bot_id
    = cancel_appointment_tool cfg w query session_id bot_id'
  /\ reschedule_appointment_tool cfg w query session_id bot_id
    = reschedule_appointment_tool cfg w query session_id bot_id'.
Proof.
  unfold cancel_appointment_tool, reschedule_appointment_tool.
  by rewrite !form_context_eq.
Qed.

(** X4.  The retrieval tool ignores the session id: neither the request it
    sends nor its result depends on the [session_id] argument. *)
Theorem retrieval_ignores_the_session (w : world) (query : list N)
    (session_id session_id' bot_id : pyval) :
  rag_request query session_id bot_id = rag_request query session_id' bot_id
  /\ rag_retrieval_tool w query session_id bot_id
     = rag_retrieval_tool w query session_id' bot_id.
Proof.
  assert (rag_request query session_id bot_id
          = rag_request query session_id' bot_id) as H.
  { unfold rag_request. by rewrite !rag_context_eq. }
  split; [done|]. unfold rag_retrieval_tool. by rewrite H.
Qed.

(** X5.  The namespace of a search is never empty: it is always a
    non-empty string. *)
Theorem namespace_is_never_empty (query : list N) (session_id bot_id : pyval) :
  exists ns,
    namespace (rag_request query session_id bot_id) = PStr ns /\ ns <> [].
Proof.
  unfold rag_request.
  destruct (rag_context query session_id bot_id) as [[sid bot] q].
  cbn [namespace]. destruct bot as [|[|c bot]]; cbn [truthy]; by eexists.
Qed.

Lemma clean_message_parts message :
  exists clean,
    clean_message message = PStr clean
    /\ strip clean = clean
    /\ clean `sublist_of` message.
Proof.
  rewrite extract_clean. eexists. split; [done|]. split; [apply strip_idem|].
  etrans; [apply strip_sublist|].
  etrans; [apply sub_sublist|]. etrans; apply sub_sublist.
Qed.

(** X6.  The clean message is trimmed, and extraction only deletes: the
    clean message is a subsequence of the message. *)
Theorem clean_message_is_a_trimmed_subsequence (message : list N) :
  exists clean,
    clean_message message = PStr clean
    /\ strip clean = clean
    /\ clean `sublist_of` message.
Proof. apply clean_message_parts. Qed.

(** X7.  The text the retrieval tool sends to the backend is a string, and a
    subsequence of the raw query: the backend sees no character the caller
    did not send. *)
Theorem search_text_is_a_subsequence (query : list N)
    (session_id bot_id : pyval) :
  exists text,
    inputs_text (rag_request query session_id bot_id) = PStr text
    /\ text `sublist_of` query.
Proof.
  unfold rag_request. rewrite rag_context_eq. cbn [inputs_text].
  destruct (gate query); [|by eexists].
  destruct (clean_message_parts query) as (clean & -> & _ & Hsub).
  by eexists.
Qed.

(** X8.  A value the extractor stores comes from a tag of the message: the
    message holds the prefix of the key, then a non-empty text without a
    closing bracket, then the closing bracket, and the value is that text
    stripped; so a stored value is itself stripped and holds no closing
    bracket. *)
Theorem stored_value_comes_from_a_tag (k : key) (message value : list N) :
  tag_value k message = PStr value ->
  (exists pre raw post,
     message = pre ++ tag_prefix k ++ raw ++ rbracket :: post
     /\ raw <> [] /\ has_char rbracket raw = false /\ value = strip raw)
  /\ strip value = value
  /\ has_char rbracket value = false.
Proof.
  rewrite extract_tag_value.
  destruct (Re.search (capture_re k) message) as [m|] eqn:Es; [|done].
  intros [= <-].
  destruct (search_sound _ _ _ Es) as (pre & t & -> & Hm).
  destruct (capture_match_parts _ _ _ Hm) as (raw & post & -> & Hne & Hrb & ->).
  split; [by exists pre, raw, post|].
  split; [apply strip_idem | by apply has_char_strip].
Qed.

Lemma stored_value_comes_from_a_tag_witness :
  (exists pre raw post,
     str "hi [PATH:  e1/acme/Xyz ] there"
       = pre ++ tag_prefix PATH ++ raw ++ rbracket :: post
     /\ raw <> [] /\ has_char rbracket raw = false
     /\ str "e1/acme/Xyz" = strip raw)
  /\ strip (str "e1/acme/Xyz") = str "e1/acme/Xyz"
  /\ has_char rbracket (str "e1/acme/Xyz") = false.
Proof.
  apply (stored_value_comes_from_a_tag PATH
           (str "hi [PATH:  e1/acme/Xyz ] there") (str "e1/acme/Xyz")).
  reflexivity.
Defined.

(** X9.  The first tag of a key wins, whatever surrounds it: when the
    prefix of the key does not occur before a tag that is closed and not
    empty, the extractor stores the stripped text of that tag. *)
Theorem first_closed_tag_wins (k : key) (pre raw post : list N) :
  contains (tag_prefix k) pre = false ->
  raw <> [] ->
  has_char rbracket raw = false ->
  tag_value k (pre ++ tag_prefix k ++ raw ++ rbracket :: post)
    = PStr (strip raw).
Proof.
  intros Hpre Hne Hrb. rewrite extract_tag_value.
  destruct (capture_tag k raw post Hne Hrb) as (m & Hm & Hg).
  by rewrite (search_first_tag _ _ _ _ Hpre Hm), Hg.
Qed.

Lemma first_closed_tag_wins_witness :
  tag_value BOT_ID
    (str "[note] " ++ tag_prefix BOT_ID ++ str " acme " ++
     rbracket :: str " and [BOT_ID: other]")
  = PStr (strip (str " acme ")).
Proof.
  apply (first_closed_tag_wins BOT_ID (str "[note] ") (str " acme ")
           (str " and [BOT_ID: other]")); [reflexivity | discriminate | reflexivity].
Defined.

(** X10.  A closed, non-empty tag anywhere in the message is enough for its
    key to receive a value. *)
Theorem closed_tag_sets_its_key (k : key) (pre raw post : list N) :
  raw <> [] ->
  has_char rbracket raw = false ->
  tag_value k (pre ++ tag_prefix k ++ raw ++ rbracket :: post) <> PNone.
Proof.
  intros Hne Hrb. rewrite extract_tag_value.
  destruct (capture_tag k raw post Hne Hrb) as (m & Hm & _).
  pose proof (search_complete _ pre _ _ Hm) as Hs.
  by destruct (Re.search _ _).
Qed.

Lemma closed_tag_sets_its_key_witness :
  tag_value SESSION_ID
    (str "[SESSION_ID: [SESSION_ID:" ++ tag_prefix SESSION_ID ++ str "s1" ++
     rbracket :: str " hello") <> PNone.
Proof.
  apply (closed_tag_sets_its_key SESSION_ID (str "[SESSION_ID: [SESSION_ID:")
           (str "s1") (str " hello")); [discriminate | reflexivity].
Defined.

(** X11.  The dictionary the extractor returns always has the same four
    keys, whatever the message holds. *)
Theorem extracted_context_has_four_keys (message : list N) :
  dom (extract_context_from_message message)
  = ({["session_id"; "path"; "bot_id"; "clean_message"]} : gset string).
Proof.
  unfold extract_context_from_message, capture.
  destruct (Re.search (capture_re SESSION_ID) message),
           (Re.search (capture_re PATH) message),
           (Re.search (capture_re BOT_ID) message);
    cbn [field]; rewrite !dom_insert_L, dom_empty_L; set_solver.
Qed.

(** X12.  In a message where brackets only delimit tags, the extractor
    stores for each key the stripped value of the first tag of that key whose
    value is not empty; tags of other keys and tags with an empty value are
    passed over. *)
Theorem first_valued_tag_is_read (k : key) (t0 : list N)
    (segs : list segment) :
  well_formed t0 segs = true ->
  tag_value k (t0 ++ render segs) = captured k segs.
Proof. apply tag_value_well_formed. Qed.

Lemma first_valued_tag_is_read_witness :
  tag_value SESSION_ID
    (str "x " ++
     render [Segment SESSION_ID [] (str " "); Segment PATH (str " a/b") [];
             Segment SESSION_ID (str " s1 ") (str " hi");
             Segment SESSION_ID (str "s2") []])
  = captured SESSION_ID
      [Segment SESSION_ID [] (str " "); Segment PATH (str " a/b") [];
       Segment SESSION_ID (str " s1 ") (str " hi");
       Segment SESSION_ID (str "s2") []].
Proof.
  apply (first_valued_tag_is_read SESSION_ID (str "x ")
           [Segment SESSION_ID [] (str " "); Segment PATH (str " a/b") [];
            Segment SESSION_ID (str " s1 ") (str " hi");
            Segment SESSION_ID (str "s2") []]).
  reflexivity.
Defined.

Lemma all_slash_snoc w :
  forallb is_slash w = true -> w <> [] -> exists w', w = w' ++ [slash].
Proof.
  intros Hw Hne. destruct (exists_last Hne) as (w' & c & ->).
  rewrite forallb_app in Hw. apply andb_true_iff in Hw as [_ Hc].
  cbn [forallb] in Hc. rewrite andb_true_r in Hc.
  apply is_slash_true in Hc as ->. by exists w'.
Qed.

Lemma strip_chars_no_slash x :
  has_char slash x = false -> strip_chars [slash] x = x.
Proof.
  intros Hx. unfold strip_chars. fold is_slash.
  assert (forall y, has_char slash y = false -> lstrip_by is_slash y = y) as Hl.
  { intros [|c y]; [done|]. rewrite has_char_cons.
    intros [Hc _]%orb_false_iff. apply lstrip_by_fix. cbn [clean_start].
    unfold is_slash, is_one_of. cbn [existsb]. by rewrite N.eqb_sym, Hc. }
  rewrite (Hl x Hx). unfold rstrip_by. rewrite Hl, ?rev_involutive; [done|].
  unfold has_char. by rewrite existsb_rev.
Qed.

Lemma namespace_eq q s b :
  namespace (rag_request q s b) =
    if truthy (rag_tenant q s b) then rag_tenant q s b
    else PStr default_namespace.
Proof.
  unfold rag_request, rag_tenant.
  by destruct (rag_context q s b) as [[sid bot] query].
Qed.

(** X13.  A derived tenant id never holds a ['/']. *)
Theorem derived_tenant_has_no_slash (path : pyval) :
  has_char slash (get_bot_id_from_path path) = false.
Proof.
  destruct path as [|[|c p]]; [done..|].
  rewrite get_bot_id_from_path_str by done.
  apply (last_Forall (fun seg => has_char slash seg = false)).
  - apply split_nonempty.
  - apply split_segments_no_sep.
Qed.

(** X14.  Path derivation yields the empty string exactly for the paths
    without a segment: those made of ['/'] only (the empty one included). *)
Theorem derived_tenant_is_empty_iff (p : list N) :
  get_bot_id_from_path (PStr p) = [] <-> forallb is_slash p = true.
Proof. rewrite get_bot_id_last_nonempty. apply last_nonempty_segment_nil. Qed.

(** X15.  A path without ['/'] is its own tenant id; so deriving a tenant
    from a derived tenant changes nothing. *)
Theorem bare_path_is_its_own_tenant (x : list N) :
  has_char slash x = false -> get_bot_id_from_path (PStr x) = x.
Proof.
  intros Hx. destruct x as [|c x]; [done|].
  rewrite get_bot_id_from_path_str by done.
  by rewrite strip_chars_no_slash, split_no_sep.
Qed.

Lemma bare_path_is_its_own_tenant_witness :
  get_bot_id_from_path (PStr (str "QApixW")) = str "QApixW".
Proof. apply (bare_path_is_its_own_tenant (str "QApixW")). reflexivity. Defined.

(** X16.  The derived tenant id sits at the end of the path: the path is
    some text that is empty or ends with ['/'], then the tenant id, then
    nothing but ['/']. *)
Theorem derived_tenant_ends_the_path (p : list N) :
  exists pre post,
    p = pre ++ get_bot_id_from_path (PStr p) ++ post
    /\ forallb is_slash post = true
    /\ (pre = [] \/ exists pre', pre = pre' ++ [slash]).
Proof.
  destruct p as [|c p]; [exists [], []; by repeat split; try left|].
  rewrite get_bot_id_from_path_str by done.
  set (q := c :: p). unfold strip_chars. fold is_slash.
  destruct (rstrip_by_split is_slash (lstrip_by is_slash q)) as (post & Hq & Hpost).
  set (t := rstrip_by is_slash (lstrip_by is_slash q)) in *.
  destruct (join_last slash (split slash t) (split_nonempty _ _))
    as (pre & Hj & Hpre).
  rewrite split_join in Hj.
  exists (take_by is_slash q ++ pre), post. split; [|split; [done|]].
  - etrans; [symmetry; apply (take_by_lstrip_by is_slash q)|].
    rewrite <- app_assoc. f_equal. by rewrite Hq, app_assoc, <- Hj.
  - destruct Hpre as [->|[pre' ->]].
    + rewrite app_nil_r.
      destruct (take_by is_slash q) as [|x w] eqn:E; [by left|]. right.
      apply all_slash_snoc; [|done]. rewrite <- E. apply take_by_all.
    + right. exists (take_by is_slash q ++ pre'). by rewrite <- app_assoc.
Qed.

(** X17.  End to end, in a message where brackets only delimit tags: when
    no BOT_ID tag has a value and no tenant is given, the namespace of the
    search is the last non-empty segment of the first non-empty PATH value,
    and ["hr4s"] when that path has no segment. *)
Theorem namespace_from_the_path (t0 : list N) (segs : list segment)
    (session_id bot_id : pyval) (path : list N) :
  well_formed t0 segs = true ->
  truthy (captured BOT_ID segs) = false ->
  truthy bot_id = false ->
  captured PATH segs = PStr path ->
  namespace (rag_request (t0 ++ render segs) session_id bot_id) =
    PStr (if bool_decide (last_nonempty_segment path = [])
          then str "hr4s" else last_nonempty_segment path).
Proof.
  intros Hwf Hbot Hb Hpath.
  rewrite namespace_eq, rag_tenant_eq, !tag_value_well_formed by done.
  rewrite Hbot, Hb, Hpath.
  destruct path as [|c path]; cbn [truthy]; [by rewrite Hb|].
  rewrite get_bot_id_last_nonempty.
  case_bool_decide as E; [by rewrite E|].
  by destruct (last_nonempty_segment (c :: path)).
Qed.

Lemma namespace_from_the_path_witness :
  namespace
    (rag_request
       (str "hello " ++
        render [Segment SESSION_ID (str " s1") (str " ");
                Segment PATH (str " /e1/acme//Xyz/ ") (str " find hours")])
       PNone PNone)
  = PStr (if bool_decide (last_nonempty_segment (str "/e1/acme//Xyz/") = [])
          then str "hr4s" else last_nonempty_segment (str "/e1/acme//Xyz/")).
Proof.
  apply (namespace_from_the_path (str "hello ")
           [Segment SESSION_ID (str " s1") (str " ");
            Segment PATH (str " /e1/acme//Xyz/ ") (str " find hours")]
           PNone PNone (str "/e1/acme//Xyz/")); reflexivity.
Defined.

(** ** Further properties of the results *)


Lemma hex_digit_printable n : (n < 16)%N -> printable (Json.hex_digit n) = true.
Proof.
  intros Hn. unfold printable, Json.hex_digit.
  destruct (N.ltb_spec n 10); apply andb_true_iff; split; apply N.leb_le; lia.
Qed.

Lemma u_escape_printable n : forallb printable (Json.u_escape n) = true.
Proof.
  unfold Json.u_escape. rewrite forallb_app. cbn [forallb].
  rewrite !hex_digit_printable by (apply N.mod_lt; lia). done.
Qed.

Lemma escape_char_printable c : forallb printable (Json.escape_char c) = true.
Proof.
  unfold Json.escape_char.
  do 7 (match goal with
        | |- context [if (c =? ?n)%N then _ else _] =>
            destruct (c =? n)%N; [done|]
        end).
  destruct ((32 <=? c) && (c <=? 126))%N eqn:E.
  - cbn [forallb]. unfold printable. by rewrite E.
  - destruct (c <? 65536)%N; by rewrite ?forallb_app, ?u_escape_printable.
Qed.

Lemma quote_printable s : forallb printable (Json.quote s) = true.
Proof.
  unfold Json.quote. rewrite !forallb_app.
  assert (forallb printable (concat (List.map Json.escape_char s)) = true)
    as ->; [|done].
  induction s as [|c s IH]; [done|]. cbn [List.map concat].
  by rewrite forallb_app, escape_char_printable, IH.
Qed.

Lemma join_printable sep (l : list (list N)) :
  forallb printable sep = true ->
  Forall (fun x => forallb printable x = true) l ->
  forallb printable (Json.join sep l) = true.
Proof.
  intros Hsep. induction l as [|x [|y l] IH]; [done| |]; intros H;
    inversion H as [|? ? Hx Hl]; subst; [done|].
  rewrite join_cons, !forallb_app, Hx, Hsep. by rewrite IH.
Qed.

Lemma dumps_printable d : forallb printable (Json.dumps d) = true.
Proof.
  unfold Json.dumps. rewrite !forallb_app.
  apply andb_true_iff; split; [done|]. apply andb_true_iff; split; [|done].
  apply join_printable; [done|]. apply Forall_map, Forall_forall.
  intros [key v] _. rewrite !forallb_app, quote_printable. cbn [fst snd andb].
  apply andb_true_iff; split; [done|].
  destruct v as [|s|[|]]; cbn [Json.dumps_val]; [done| |done|done].
  apply quote_printable.
Qed.

(** X18.  The result of a form tool is printable ASCII whatever the query,
    the arguments, the templates and the fault hold: every character of a
    session id, a URL or a fault description outside that range is
    escaped.  (A call gives no result only when a fault that is not an
    [Exception] leaves it.) *)
Theorem form_results_are_ascii (cfg : config) (w : world) (query : list N)
    (session_id bot_id : pyval) :
  let ascii (call : outcome (list N)) :=
    match call with
    | Ok r => forallb printable r = true
    | Raise e => is_Exception e = false
    end in
  ascii (book_appointment_tool cfg w query session_id bot_id)
  /\ ascii (cancel_appointment_tool cfg w query session_id bot_id)
  /\ ascii (reschedule_appointment_tool cfg w query session_id bot_id).
Proof.
  cbn zeta.
  unfold book_appointment_tool, cancel_appointment_tool,
    reschedule_appointment_tool, success_payload, failure_payload.
  destruct (form_context query session_id bot_id) as [sid bot].
  destruct (time_ms w) as [ts|[[|] d]];
    cbn [try_except mbind mret outcome_bind outcome_ret is_Exception];
    repeat split; apply dumps_printable.
Qed.

(** X19.  No tool ever returns the empty string. *)
Theorem results_are_never_empty (cfg : config) (w : world) (query : list N)
    (session_id bot_id : pyval) :
  book_appointment_tool cfg w query session_id bot_id <> Ok []
  /\ cancel_appointment_tool cfg w query session_id bot_id <> Ok []
  /\ reschedule_appointment_tool cfg w query session_id bot_id <> Ok []
  /\ rag_retrieval_tool w query session_id bot_id <> Ok [].
Proof.
  unfold book_appointment_tool, cancel_appointment_tool,
    reschedule_appointment_tool, rag_retrieval_tool.
  destruct (form_context query session_id bot_id) as [sid bot].
  destruct (time_ms w) as [ts|[[|] d]],
           (search_records w _) as [[|h hits]|[[|] d']]; done.
Qed.

(** ** One tag in a text with other brackets *)

Lemma contains_unfold sub c s :
  contains sub (c :: s) =
    match after_prefix sub (c :: s) with
    | Some _ => true
    | None => contains sub s
    end.
Proof. done. Qed.

Lemma after_prefix_app_Some l a b r :
  after_prefix l a = Some r -> after_prefix l (a ++ b) = Some (r ++ b).
Proof.
  revert a. induction l as [|x l IH]; intros a.
  - cbn [after_prefix]. destruct a; by intros [= <-].
  - destruct a as [|y a]; [done|]. cbn [app after_prefix].
    destruct (x =? y)%N; [apply IH | done].
Qed.

Lemma contains_app_l sub a b :
  contains sub (a ++ b) = false -> contains sub a = false.
Proof.
  induction a as [|c a IH]; cbn [app].
  - intros H. cbn [contains].
    destruct (after_prefix sub []) as [r|] eqn:E; [|done].
    pose proof (after_prefix_app_Some _ _ b _ E) as E'. cbn [app] in E'.
    destruct b; cbn [contains] in H; by rewrite E' in H.
  - rewrite !contains_unfold.
    destruct (after_prefix sub (c :: a)) as [r|] eqn:E.
    + pose proof (after_prefix_app_Some _ _ b _ E) as E'. cbn [app] in E'.
      by rewrite E'.
    + destruct (after_prefix sub (c :: a ++ b)); [done | apply IH].
Qed.

Lemma contains_app_r sub a b :
  contains sub (a ++ b) = false -> contains sub b = false.
Proof.
  induction a as [|c a IH]; [done|]. cbn [app].
  intros [_ H]%contains_cons. by apply IH.
Qed.

Lemma contains_skip_text k u r :
  has_char lbracket u = false ->
  contains (tag_prefix k) (u ++ r) = contains (tag_prefix k) r.
Proof.
  induction u as [|c u IH]; [done|]. intros Hu. cbn [app].
  rewrite contains_unfold, after_tag_prefix_other
    by (eapply not_lbracket, Hu).
  apply IH. rewrite has_char_cons in Hu. by apply orb_false_iff in Hu as [_ ?].
Qed.

Lemma contains_before_bracket k pre t :
  contains (tag_prefix k) pre = false ->
  contains (tag_prefix k) (pre ++ lbracket :: t)
  = contains (tag_prefix k) (lbracket :: t).
Proof.
  induction pre as [|c pre IH]; [done|]. intros Hpre. cbn [app].
  rewrite contains_unfold, no_prefix_before_tag by done.
  apply IH. by apply contains_cons in Hpre as [_ ?].
Qed.

Lemma search_before_bracket k pre t :
  contains (tag_prefix k) pre = false ->
  Re.search (capture_re k) (pre ++ lbracket :: t)
  = Re.search (capture_re k) (lbracket :: t).
Proof.
  induction pre as [|c pre IH]; [done|]. intros Hpre. cbn [app Re.search].
  rewrite capture_no_prefix by by apply no_prefix_before_tag.
  apply IH. by apply contains_cons in Hpre as [_ ?].
Qed.

Lemma sub_before_bracket k pre t :
  contains (tag_prefix k) pre = false ->
  Re.sub (delete_re k) (pre ++ lbracket :: t)
  = pre ++ Re.sub (delete_re k) (lbracket :: t).
Proof.
  induction pre as [|c pre IH]; [done|]. intros Hpre. cbn [app].
  rewrite sub_skip by by apply delete_no_prefix, no_prefix_before_tag.
  rewrite IH; [done|]. by apply contains_cons in Hpre as [_ ?].
Qed.

Lemma contains_lstrip k s :
  contains (tag_prefix k) (lstrip_by isspace s) = contains (tag_prefix k) s.
Proof.
  rewrite <- (take_by_lstrip_by isspace s) at 2.
  rewrite contains_skip_text; [done|].
  pose proof (take_by_all isspace s) as H.
  induction (take_by isspace s) as [|c w IH]; [done|].
  cbn [forallb] in H. apply andb_true_iff in H as [Hc Hw].
  rewrite has_char_cons, (IH Hw), orb_false_r.
  apply N.eqb_neq. intros <-. done.
Qed.

Section OneTag.
Variables (k : key) (pre raw post : list N).
Hypothesis Hraw : bracket_free raw = true.
Hypothesis Hrest :
  forall k', contains (tag_prefix k') (pre ++ lstrip_by isspace post) = false.

Lemma one_tag_raw :
  has_char lbracket raw = false /\ has_char rbracket raw = false.
Proof.
  unfold bracket_free in Hraw.
  by destruct (has_char lbracket raw), (has_char rbracket raw).
Qed.

Lemma one_tag_pre k' : contains (tag_prefix k') pre = false.
Proof. eapply contains_app_l, Hrest. Qed.

Lemma one_tag_post k' : contains (tag_prefix k') post = false.
Proof. rewrite <- contains_lstrip. eapply contains_app_r, Hrest. Qed.

Lemma one_tag_other k' :
  key_eqb k k' = false ->
  contains (tag_prefix k') (pre ++ tag_prefix k ++ raw ++ rbracket :: post)
  = false.
Proof.
  intros Hk. destruct (tag_prefix_split k) as (l & El & Hl).
  destruct one_tag_raw as [Hr1 Hr2].
  pose proof (prefix_mismatch k' k (raw ++ rbracket :: post) Hk) as Hm.
  rewrite El in *. cbn [app] in *.
  rewrite contains_before_bracket by apply one_tag_pre.
  rewrite contains_unfold, Hm.
  replace (l ++ raw ++ rbracket :: post)
    with ((l ++ raw ++ [rbracket]) ++ post) by by rewrite <- !app_assoc.
  rewrite contains_skip_text; [apply one_tag_post|].
  by rewrite !has_char_app, Hl, Hr1.
Qed.

Lemma one_tag_pass :
  Re.sub (delete_re k) (pre ++ tag_prefix k ++ raw ++ rbracket :: post)
  = pre ++ lstrip_by isspace post.
Proof.
  destruct one_tag_raw as [Hr1 Hr2].
  pose proof (delete_tag k raw post Hr2) as Hm.
  destruct (tag_prefix_split k) as (l & El & Hl).
  rewrite El in *. cbn [app] in *.
  rewrite sub_before_bracket by apply one_tag_pre.
  rewrite (sub_hit _ _ _ _ Hm).
  - cbn [Re.remainder snd]. f_equal. apply no_tag_sub, no_prefix_no_tag.
    rewrite contains_lstrip. apply one_tag_post.
  - cbn [Re.remainder snd length].
    pose proof (length_lstrip_by isspace post).
    rewrite !length_app. cbn [length]. lia.
Qed.

Lemma one_tag_pass_other k' :
  key_eqb k k' = false ->
  Re.sub (delete_re k') (pre ++ tag_prefix k ++ raw ++ rbracket :: post)
  = pre ++ tag_prefix k ++ raw ++ rbracket :: post.
Proof. intros Hk. by apply no_tag_sub, no_prefix_no_tag, one_tag_other. Qed.

Lemma one_tag_pass_rest k' :
  Re.sub (delete_re k') (pre ++ lstrip_by isspace post)
  = pre ++ lstrip_by isspace post.
Proof. apply no_tag_sub, no_prefix_no_tag, Hrest. Qed.

Lemma one_tag_value :
  tag_value k (pre ++ tag_prefix k ++ raw ++ rbracket :: post) =
    if bool_decide (raw = []) then PNone else PStr (strip raw).
Proof.
  destruct one_tag_raw as [Hr1 Hr2]. rewrite extract_tag_value.
  case_bool_decide as Hv.
  - destruct (tag_prefix_split k) as (l & El & Hl).
    pose proof (capture_empty k post) as Hm.
    rewrite Hv, El in *. cbn [app] in *.
    rewrite search_before_bracket by apply one_tag_pre.
    cbn [Re.search]. rewrite Hm.
    replace (l ++ rbracket :: post) with ((l ++ [rbracket]) ++ post)
      by by rewrite <- app_assoc.
    rewrite search_skip by by rewrite has_char_app, Hl.
    by rewrite no_tag_search by apply no_prefix_no_tag, one_tag_post.
  - destruct (capture_tag k raw post Hv Hr2) as (m & Hm & Hg).
    by rewrite (search_first_tag _ _ _ _ (one_tag_pre k) Hm), Hg.
Qed.

Lemma one_tag_value_other k' :
  key_eqb k k' = false ->
  tag_value k' (pre ++ tag_prefix k ++ raw ++ rbracket :: post) = PNone.
Proof.
  intros Hk. by apply tag_value_no_tag, no_prefix_no_tag, one_tag_other.
Qed.
End OneTag.

Lemma one_tag_clean k pre raw post :
  bracket_free raw = true ->
  (forall k',
     contains (tag_prefix k') (pre ++ lstrip_by isspace post) = false) ->
  clean_message (pre ++ tag_prefix k ++ raw ++ rbracket :: post)
  = PStr (strip (pre ++ lstrip_by isspace post)).
Proof.
  intros Hraw Hrest. rewrite extract_clean. destruct k.
  - rewrite one_tag_pass by done. by rewrite !one_tag_pass_rest.
  - rewrite (one_tag_pass_other PATH) by done.
    rewrite one_tag_pass by done. by rewrite one_tag_pass_rest.
  - rewrite (one_tag_pass_other BOT_ID), (one_tag_pass_other BOT_ID) by done.
    by rewrite one_tag_pass.
Qed.

(** X20.  A message with one tag, in a text that may hold any other
    brackets but no tag prefix: the extractor stores the stripped value of
    the tag (nothing when the value is empty) and nothing for the other
    keys, and the clean message is the text around the tag, without the
    whitespace that followed the tag, trimmed; the other brackets stay. *)
Theorem lone_tag_among_brackets (k : key) (pre raw post : list N) :
  bracket_free raw = true ->
  (forall k',
     contains (tag_prefix k') (pre ++ lstrip_by isspace post) = false) ->
  let message := pre ++ tag_prefix k ++ raw ++ rbracket :: post in
  tag_value k message
    = (if bool_decide (raw = []) then PNone else PStr (strip raw))
  /\ (forall k', k' <> k -> tag_value k' message = PNone)
  /\ clean_message message
     = PStr (strip (pre ++ lstrip_by isspace post)).
Proof.
  intros Hraw Hrest. cbn zeta.
  split; [by apply one_tag_value|]. split; [|by apply one_tag_clean].
  intros k' Hk. apply one_tag_value_other; [done..|].
  destruct k, k'; done.
Qed.

Lemma lone_tag_among_brackets_witness :
  let message :=
    str "see [1] " ++ tag_prefix BOT_ID ++ str " acme " ++
    rbracket :: str "  what is a[i]? " in
  tag_value BOT_ID message
    = (if bool_decide (str " acme " = []) then PNone
       else PStr (strip (str " acme ")))
  /\ (forall k', k' <> BOT_ID -> tag_value k' message = PNone)
  /\ clean_message message
     = PStr (strip (str "see [1] " ++
                    lstrip_by isspace (str "  what is a[i]? "))).
Proof.
  apply (lone_tag_among_brackets BOT_ID (str "see [1] ") (str " acme ")
           (str "  what is a[i]? ")).
  - reflexivity.
  - intros []; reflexivity.
Defined.

(** ** Well-formed messages, in full *)

(** X21.  For a raw string made of free text and tags, in any order and
    spacing, where an opening bracket only ever starts a tag, the clean
    message is the free text with the whitespace behind every tag left
    out, trimmed; extracting again from it changes nothing and finds no
    tag. *)
Theorem well_formed_extraction_is_idempotent (t0 : pystr) (segs : list segment) :
  well_formed t0 segs = true ->
  let clean := strip (t0 ++ text_of segs) in
  clean_message (t0 ++ render segs) = PStr clean
  /\ clean_message clean = PStr clean
  /\ forall k, tag_value k clean = PNone.
Proof.
  intros Hwf. cbn zeta. split; [by apply clean_well_formed|].
  apply well_formed_parts in Hwf as [Ht0 Hsegs].
  assert (has_char lbracket (strip (t0 ++ text_of segs)) = false) as Hc.
  { apply has_char_strip. by rewrite has_char_app, Ht0, text_of_no_lbracket. }
  split.
  - rewrite extract_clean, (sub_text SESSION_ID _ Hc), (sub_text PATH _ Hc),
      (sub_text BOT_ID _ Hc).
    by rewrite strip_idem.
  - intros k. by rewrite extract_tag_value, search_text.
Qed.

Lemma well_formed_extraction_is_idempotent_witness :
  let segs := [Segment SESSION_ID (str " s1") (str "  ");
               Segment PATH (str "e1/acme/Xyz ") (str " find  hours ")] in
  let clean := strip (str "hi " ++ text_of segs) in
  clean_message (str "hi " ++ render segs) = PStr clean
  /\ clean_message clean = PStr clean
  /\ forall k, tag_value k clean = PNone.
Proof.
  apply (well_formed_extraction_is_idempotent (str "hi ")
           [Segment SESSION_ID (str " s1") (str "  ");
            Segment PATH (str "e1/acme/Xyz ") (str " find  hours ")]).
  reflexivity.
Defined.

(** X22.  In a message where brackets only delimit tags, a tag whose
    value is empty or only whitespace, the first of its key, and the only
    one when its value is empty, gives its key no value, and the clean
    message is the free text around it, the whitespace behind it left
    out. *)
Theorem blank_tag_in_a_well_formed_message (k : key) (t0 value text : pystr)
    (before after : list segment) (explicit other : pyval) :
  let sg := {| seg_key := k; seg_value := value; seg_text := text |} in
  let message := t0 ++ render (before ++ sg :: after) in
  well_formed t0 (before ++ sg :: after) = true ->
  forallb isspace value = true ->
  (forall sg', In sg' before -> seg_key sg' <> k) ->
  (value = [] -> forall sg', In sg' after -> seg_key sg' <> k) ->
  truthy (tag_value k message) = false
  /\ py_or (tag_value k message) explicit = explicit
  /\ clean_message message =
       PStr (strip (t0 ++ text_of before ++ lstrip_by isspace text ++
                    text_of after))
  /\ match k with
     | SESSION_ID =>
         form_session message explicit other =
           (if truthy explicit then explicit
            else PStr (str "fallback-session-id"))
     | BOT_ID => form_tenant message other explicit = explicit
     | PATH =>
         rag_tenant message other explicit =
           py_or (tag_value BOT_ID message) explicit
     end.
Proof.
  intros sg message Hwf Hblank Hbefore Hafter. subst sg.
  assert (truthy (tag_value k message) = false) as Hfalse.
  { unfold message. rewrite tag_value_well_formed, captured_skip by done.
    cbn [captured seg_key seg_value].
    replace (key_eqb k k) with true by by destruct k.
    case_bool_decide as Hv; cbn [andb negb].
    - by rewrite captured_none by auto.
    - by rewrite strip_all_space. }
  split; [done|]. split; [by unfold py_or; rewrite Hfalse|].
  split.
  { unfold message. rewrite clean_well_formed by done.
    by rewrite text_of_app. }
  destruct k.
  - unfold form_session. rewrite form_context_eq. cbn [fst].
    unfold py_or. by rewrite Hfalse.
  - rewrite rag_tenant_eq. unfold py_or. rewrite Hfalse.
    destruct (truthy (tag_value BOT_ID message)); [done|].
    by destruct (truthy explicit).
  - unfold form_tenant. rewrite form_context_eq. cbn [snd].
    unfold py_or. by rewrite Hfalse.
Qed.

Lemma blank_tag_in_a_well_formed_message_witness :
  let message := str "[SESSION_ID:   ] book me in" in
  truthy (tag_value SESSION_ID message) = false
  /\ py_or (tag_value SESSION_ID message) (PStr (str "s7")) = PStr (str "s7")
  /\ clean_message message = PStr (str "book me in")
  /\ form_session message (PStr (str "s7")) PNone = PStr (str "s7").
Proof.
  apply (blank_tag_in_a_well_formed_message SESSION_ID [] (str "   ")
           (str " book me in") [] [] (PStr (str "s7")) PNone).
  - reflexivity.
  - reflexivity.
  - intros sg' [].
  - intros Hv. discriminate Hv.
Defined.

(** ** Deleting, said without a pattern *)

Lemma after_tag_is_the_match k s :
  after_tag k s
  = option_map Re.remainder (Re.match_here (delete_re k) s).
Proof.
  unfold after_tag.
  destruct (after_prefix (tag_prefix k) s) as [r|] eqn:E.
  - apply after_prefix_Some in E as ->.
    pose proof (take_by_lstrip_by (Re.in_class (Re.Except rbracket)) r) as Hr.
    pose proof (take_by_all (Re.in_class (Re.Except rbracket)) r) as Hv.
    pose proof (lstrip_by_clean (Re.in_class (Re.Except rbracket)) r) as Hc.
    change (fun c : N => negb (c =? rbracket)%N)
      with (Re.in_class (Re.Except rbracket)).
    destruct (lstrip_by (Re.in_class (Re.Except rbracket)) r) as [|c t].
    + rewrite app_nil_r in Hr. rewrite <- Hr.
      by rewrite delete_unclosed by by apply has_char_except.
    + cbn [clean_start Re.in_class] in Hc.
      apply negb_true_iff, negb_false_iff, N.eqb_eq in Hc as ->.
      rewrite <- Hr. by rewrite delete_tag by by apply has_char_except.
  - by rewrite delete_no_prefix.
Qed.

Lemma without_tags_nil k : without_tags k [] = [].
Proof. by simp without_tags. Qed.

Lemma sub_is_without_tags k s : Re.sub (delete_re k) s = without_tags k s.
Proof.
  remember (length s) as n eqn:Hn. revert s Hn.
  induction n as [n IH] using lt_wf_ind. intros s ->.
  destruct s as [|c s]; [by rewrite sub_nil, without_tags_nil|].
  simp sub without_tags. rewrite after_tag_is_the_match.
  destruct (Re.match_here (delete_re k) (c :: s)) as [m|]; cbn.
  - destruct (lt_dec _ _) as [Hlt|Hn]; cbn.
    + by eapply IH.
    + f_equal. eapply IH; [|done]. cbn [length]. lia.
  - f_equal. eapply IH; [|done]. cbn [length]. lia.
Qed.

Lemma clean_without_tags message :
  clean_message message =
    PStr (strip (without_tags BOT_ID (without_tags PATH
                   (without_tags SESSION_ID message)))).
Proof. by rewrite extract_clean, !sub_is_without_tags. Qed.

Lemma clean_idempotent_without_tag clean :
  (forall k, has_tag k clean = false) ->
  strip clean = clean ->
  clean_message clean = PStr clean /\ forall k, tag_value k clean = PNone.
Proof.
  intros Hk Hs. split.
  - by rewrite clean_message_no_tag, Hs.
  - intros k. by apply tag_value_no_tag.
Qed.


(** ** What the deleting pattern takes *)

Lemma after_tag_parts k s rest :
  after_tag k s = Some rest ->
  exists v t,
    s = tag_prefix k ++ v ++ rbracket :: t
    /\ has_char rbracket v = false
    /\ rest = lstrip_by isspace t.
Proof.
  unfold after_tag.
  destruct (after_prefix (tag_prefix k) s) as [r|] eqn:E; [|done].
  apply after_prefix_Some in E as ->.
  pose proof (take_by_lstrip_by (Re.in_class (Re.Except rbracket)) r) as Hr.
  pose proof (take_by_all (Re.in_class (Re.Except rbracket)) r) as Hv.
  pose proof (lstrip_by_clean (Re.in_class (Re.Except rbracket)) r) as Hc.
  change (fun c : N => negb (c =? rbracket)%N)
    with (Re.in_class (Re.Except rbracket)).
  destruct (lstrip_by (Re.in_class (Re.Except rbracket)) r) as [|c t]; [done|].
  cbn [clean_start Re.in_class] in Hc.
  apply negb_true_iff, negb_false_iff, N.eqb_eq in Hc as ->.
  intros [= <-].
  exists (take_by (Re.in_class (Re.Except rbracket)) r), t.
  by rewrite Hr, (has_char_except _ _ Hv).
Qed.

Lemma delete_match_parts k s m :
  Re.match_here (delete_re k) s = Some m ->
  exists v t,
    s = tag_prefix k ++ v ++ rbracket :: t
    /\ has_char rbracket v = false
    /\ Re.remainder m = lstrip_by isspace t.
Proof.
  intros Hm. apply (after_tag_parts k s).
  by rewrite after_tag_is_the_match, Hm.
Qed.

Lemma delete_match_shorter k s m :
  Re.match_here (delete_re k) s = Some m ->
  length (Re.remainder m) < length s.
Proof.
  intros (v & t & -> & _ & ->)%delete_match_parts.
  pose proof (sublist_length _ _ (lstrip_by_sublist isspace t)).
  destruct (tag_prefix_cons k) as [l ->].
  cbn [app length]. rewrite ?length_app. cbn [length]. lia.
Qed.

Lemma sub_delete_hit k c s m :
  Re.match_here (delete_re k) (c :: s) = Some m ->
  Re.sub (delete_re k) (c :: s) = Re.sub (delete_re k) (Re.remainder m).
Proof.
  intros Hm. apply sub_hit; [done|]. by apply (delete_match_shorter k).
Qed.

(** ** A blank tag, in any message *)

Lemma first_split_unique (c : N) x y r r' :
  has_char c x = false -> has_char c y = false ->
  x ++ c :: r = y ++ c :: r' -> x = y /\ r = r'.
Proof.
  revert y. induction x as [|a x IH]; intros [|b y]; cbn [app];
    rewrite ?has_char_cons; intros Hx Hy E.
  - by injection E as ->.
  - injection E as <- _. by rewrite N.eqb_refl in Hy.
  - injection E as -> _. by rewrite N.eqb_refl in Hx.
  - injection E as -> E.
    apply orb_false_iff in Hx as [_ Hx]. apply orb_false_iff in Hy as [_ Hy].
    by destruct (IH _ Hx Hy E) as [-> ->].
Qed.

Lemma has_char_outside (p : N -> bool) c w :
  forallb p w = true -> p c = false -> has_char c w = false.
Proof.
  intros Hw Hc. induction w as [|x w IH]; [done|].
  cbn [forallb] in Hw. apply andb_true_iff in Hw as [Hx Hw].
  rewrite has_char_cons, IH by done.
  destruct (c =? x)%N eqn:E; [|done].
  apply N.eqb_eq in E as ->. by rewrite Hx in Hc.
Qed.

Lemma tag_prefix_no_rbracket k : has_char rbracket (tag_prefix k) = false.
Proof. by destruct k. Qed.

Lemma after_prefix_other_key k k' r :
  key_eqb k k' = false ->
  after_prefix (tag_prefix k') (tag_prefix k ++ r) = None.
Proof. by destruct k, k'. Qed.

Lemma key_eqb_true k k' : key_eqb k k' = true -> k = k'.
Proof. by destruct k, k'. Qed.

(** One deleting pass over a message that holds a blank tag of key [k],
    the pass being that of any key [k']: the tag goes, alone or inside a
    longer match, or else, the keys being different, it stays as it is. *)
Lemma blank_tag_pass k k' w a b :
  forallb isspace w = true ->
  Re.sub (delete_re k') (a ++ (tag_prefix k ++ w ++ [rbracket]) ++ b)
    `sublist_of` a ++ b
  \/ key_eqb k k' = false /\
     exists a' b',
       Re.sub (delete_re k') (a ++ (tag_prefix k ++ w ++ [rbracket]) ++ b)
       = a' ++ (tag_prefix k ++ w ++ [rbracket]) ++ b'
       /\ a' `sublist_of` a /\ b' `sublist_of` b.
Proof.
  intros Hw. remember (length a) as n eqn:Hn. revert a Hn.
  induction n as [n IH] using lt_wf_ind. intros a ->.
  destruct (tag_prefix_split k) as (l & Hl & Hll).
  assert (has_char rbracket w = false) as Hwr by by apply has_char_all_space.
  assert (has_char lbracket w = false) as Hwl
    by by apply (has_char_outside isspace).
  destruct a as [|c a].
  - cbn [app]. destruct (key_eqb k k') eqn:Ek.
    + left. apply key_eqb_true in Ek as <-.
      pose proof (delete_tag k w b Hwr) as Hm.
      replace ((tag_prefix k ++ w ++ [rbracket]) ++ b)
        with (tag_prefix k ++ w ++ rbracket :: b)
        by by rewrite <- !app_assoc.
      rewrite Hl in Hm |- *. cbn [app] in Hm |- *.
      rewrite (sub_delete_hit _ _ _ _ Hm). cbn [Re.remainder snd].
      etrans; [apply sub_sublist|apply lstrip_by_sublist].
    + right. split; [done|].
      exists [], (Re.sub (delete_re k') b).
      split; [|split; [done|apply sub_sublist]].
      assert (tag_prefix k ++ w ++ [rbracket]
              = lbracket :: (l ++ w ++ [rbracket])) as Htag by by rewrite Hl.
      assert (Re.match_here (delete_re k')
                ((tag_prefix k ++ w ++ [rbracket]) ++ b) = None) as Hno.
      { apply delete_no_prefix. rewrite <- app_assoc.
        by apply after_prefix_other_key. }
      assert (has_char lbracket (l ++ w ++ [rbracket]) = false) as Hu
        by by rewrite !has_char_app, Hll, Hwl.
      rewrite Htag in Hno |- *. revert Hno Hu.
      generalize (l ++ w ++ [rbracket]). intros u Hno Hu.
      cbn [app] in Hno |- *. rewrite (sub_skip _ _ _ Hno). f_equal.
      by apply sub_skip_text.
  - cbn [app].
    destruct (Re.match_here (delete_re k')
                (c :: a ++ (tag_prefix k ++ w ++ [rbracket]) ++ b)) as [m|]
      eqn:Em.
    + rewrite (sub_delete_hit _ _ _ _ Em).
      destruct (delete_match_parts _ _ _ Em) as (v & t & Hs & Hv & ->).
      assert ((exists a2, c :: a = (tag_prefix k' ++ v ++ [rbracket]) ++ a2
                 /\ t = a2 ++ (tag_prefix k ++ w ++ [rbracket]) ++ b)
              \/ t = b) as [(a2 & Ha & ->)| ->].
      { change (c :: a ++ (tag_prefix k ++ w ++ [rbracket]) ++ b)
          with ((c :: a) ++ (tag_prefix k ++ w ++ [rbracket]) ++ b) in Hs.
        replace (tag_prefix k' ++ v ++ rbracket :: t)
          with ((tag_prefix k' ++ v ++ [rbracket]) ++ t) in Hs
          by by rewrite <- !app_assoc.
        apply app_eq_inv in Hs as [(a2 & Ha & Ht)|(k0 & Hp & Ht)].
        - left. by exists a2.
        - destruct k0 as [|x k0 _] using rev_ind.
          + left. exists []. rewrite app_nil_r in Hp |- *. by cbn [app] in Ht.
          + right.
            rewrite !app_assoc in Hp. apply app_inj_tail in Hp as [Hp <-].
            assert (has_char rbracket k0 = false) as Hk0.
            { assert (has_char rbracket ((c :: a) ++ k0) = false) as H.
              { rewrite <- Hp.
                by rewrite has_char_app, tag_prefix_no_rbracket, Hv. }
              rewrite has_char_app in H. by apply orb_false_iff in H as [_ H]. }
            assert ((tag_prefix k ++ w) ++ rbracket :: b
                    = k0 ++ rbracket :: t) as Ht'
              by (rewrite <- !app_assoc in Ht; by rewrite <- !app_assoc).
            apply first_split_unique in Ht' as [_ Ht']; [done| |done].
            by rewrite has_char_app, tag_prefix_no_rbracket, Hwr. }
      * assert (clean_start isspace ((tag_prefix k ++ w ++ [rbracket]) ++ b)
                = true) as Hcs by by rewrite Hl.
        rewrite (lstrip_by_app _ _ _ Hcs).
        pose proof (lstrip_by_sublist isspace a2) as Hsub.
        assert (length (lstrip_by isspace a2) < length (c :: a)) as Hlt.
        { apply sublist_length in Hsub. rewrite Ha, length_app.
          destruct (tag_prefix_cons k') as [l' ->]. cbn [app length]. lia. }
        assert (a2 `sublist_of` c :: a) as Ha2
          by (rewrite Ha; apply sublist_inserts_l; done).
        destruct (IH _ Hlt (lstrip_by isspace a2) eq_refl)
          as [H|(Ek & a' & b' & -> & Ha' & Hb')].
        -- left. etrans; [exact H|].
           change (c :: a ++ b) with ((c :: a) ++ b).
           apply sublist_app; [by etrans|done].
        -- right. split; [done|]. exists a', b'.
           split; [done|]. split; [|done]. etrans; [exact Ha'|]. by etrans.
      * left. etrans; [apply sub_sublist|].
        etrans; [apply lstrip_by_sublist|].
        change (c :: a ++ b) with ((c :: a) ++ b). by apply sublist_inserts_l.
    + rewrite (sub_skip _ _ _ Em).
      destruct (IH (length a) ltac:(cbn [length]; lia) a eq_refl)
        as [H|(Ek & a' & b' & -> & Ha' & Hb')].
      * left. by apply sublist_skip.
      * right. split; [done|]. exists (c :: a'), b'.
        split; [done|]. split; [by apply sublist_skip|done].
Qed.

Lemma blank_tag_is_deleted k w pre post :
  forallb isspace w = true ->
  exists clean,
    clean_message (pre ++ (tag_prefix k ++ w ++ [rbracket]) ++ post)
    = PStr clean
    /\ clean `sublist_of` pre ++ post.
Proof.
  intros Hw. rewrite extract_clean. eexists. split; [done|].
  etrans; [apply strip_sublist|].
  destruct (blank_tag_pass k SESSION_ID w pre post Hw)
    as [H1|(E1 & a1 & b1 & -> & Ha1 & Hb1)].
  { etrans; [apply sub_sublist|]. by etrans; [apply sub_sublist|]. }
  destruct (blank_tag_pass k PATH w a1 b1 Hw)
    as [H2|(E2 & a2 & b2 & -> & Ha2 & Hb2)].
  { etrans; [apply sub_sublist|]. etrans; [exact H2|]. by apply sublist_app. }
  destruct (blank_tag_pass k BOT_ID w a2 b2 Hw) as [H3|(E3 & _)].
  { etrans; [exact H3|]. apply sublist_app; by etrans. }
  by destruct k.
Qed.

(** ** What a blank tag gives its key *)

Lemma search_here p s m :
  Re.match_here p s = Some m -> Re.search p s = Some m.
Proof. intros H. destruct s; cbn [Re.search]; by rewrite H. Qed.

Lemma search_next p c s :
  Re.match_here p (c :: s) = None -> Re.search p (c :: s) = Re.search p s.
Proof. intros H. cbn [Re.search]. by rewrite H. Qed.

Lemma blank_tag_capture k w post :
  forallb isspace w = true ->
  match Re.match_here (capture_re k) ((tag_prefix k ++ w ++ [rbracket]) ++ post)
  with
  | Some m => w <> [] /\ strip (Re.piece_text m 2) = []
  | None => w = []
  end.
Proof.
  intros Hw.
  replace ((tag_prefix k ++ w ++ [rbracket]) ++ post)
    with (tag_prefix k ++ w ++ rbracket :: post) by by rewrite <- !app_assoc.
  destruct w as [|c w]; [cbn [app]; by rewrite capture_empty|].
  destruct (capture_tag k (c :: w) post ltac:(done)
              (has_char_all_space _ Hw)) as (m & -> & ->).
  by rewrite strip_all_space.
Qed.

Lemma blank_tag_value k w pre post :
  forallb isspace w = true ->
  contains (tag_prefix k) pre = false ->
  tag_value k (pre ++ (tag_prefix k ++ w ++ [rbracket]) ++ post)
  = if bool_decide (w = []) then tag_value k post else PStr [].
Proof.
  intros Hw Hpre. rewrite !extract_tag_value.
  pose proof (blank_tag_capture k w post Hw) as Hc.
  destruct (tag_prefix_split k) as (l & Hl & Hll).
  destruct (Re.match_here (capture_re k)
              ((tag_prefix k ++ w ++ [rbracket]) ++ post)) as [m|] eqn:Em.
  - destruct Hc as [Hw0 Hm]. rewrite bool_decide_false by done.
    rewrite <- app_assoc in Em |- *.
    by rewrite (search_first_tag _ _ _ _ Hpre Em), Hm.
  - subst w. rewrite bool_decide_true by done.
    rewrite Hl in Em |- *. cbn [app] in Em |- *.
    rewrite (search_before_bracket _ _ _ Hpre), (search_next _ _ _ Em).
    replace (l ++ rbracket :: post) with ((l ++ [rbracket]) ++ post)
      by by rewrite <- app_assoc.
    rewrite search_skip; [done|]. by rewrite has_char_app, Hll.
Qed.

Lemma after_prefix_closed l x t :
  has_char rbracket l = false ->
  after_prefix l x = None ->
  after_prefix l (x ++ rbracket :: t) = None.
Proof.
  revert x. induction l as [|a l IH]; intros x; [done|].
  rewrite has_char_cons. intros [Ha Hl]%orb_false_iff.
  destruct x as [|c x]; cbn [app after_prefix].
  - intros _. by rewrite N.eqb_sym, Ha.
  - destruct (a =? c)%N; [by apply IH|done].
Qed.

Lemma up_to_the_bracket r :
  exists v,
    has_char rbracket v = false /\
    forall t, exists t', r ++ rbracket :: t = v ++ rbracket :: t'.
Proof.
  induction r as [|c r (v & Hv & IH)].
  - exists []. split; [done|]. intros t. by exists t.
  - destruct (rbracket =? c)%N eqn:E.
    + apply N.eqb_eq in E as <-. exists []. split; [done|].
      intros t. by exists (r ++ rbracket :: t).
    + exists (c :: v). split; [by rewrite has_char_cons, E|].
      intros t. destruct (IH t) as [t' Ht]. exists t'. cbn [app].
      by rewrite Ht.
Qed.

(** At a position before a closing bracket, the capturing pattern matches
    or fails, and reads the same value, whatever follows the bracket. *)
Lemma capture_here_closed k x post :
  match Re.match_here (capture_re k) (x ++ [rbracket]),
        Re.match_here (capture_re k) (x ++ rbracket :: post) with
  | Some m, Some m' => strip (Re.piece_text m 2) = strip (Re.piece_text m' 2)
  | None, None => True
  | _, _ => False
  end.
Proof.
  destruct (after_prefix (tag_prefix k) x) as [r|] eqn:E.
  - apply after_prefix_Some in E as ->. rewrite <- !app_assoc.
    destruct (up_to_the_bracket r) as (v & Hv & Hr).
    destruct (Hr []) as [t1 ->]. destruct (Hr post) as [t2 ->].
    destruct v as [|c v]; [cbn [app]; by rewrite !capture_empty|].
    destruct (capture_tag k (c :: v) t1 ltac:(done) Hv) as (m1 & -> & ->).
    by destruct (capture_tag k (c :: v) t2 ltac:(done) Hv) as (m2 & -> & ->).
  - rewrite !capture_no_prefix; [done| |];
      by apply after_prefix_closed; [apply tag_prefix_no_rbracket|].
Qed.

(** The value of a key in a message cut behind a closing bracket: that of
    the part up to the bracket, and that of the rest when that part gives
    none. *)
Lemma tag_value_closed k head post :
  tag_value k (head ++ rbracket :: post)
  = match tag_value k (head ++ [rbracket]) with
    | PNone => tag_value k post
    | v => v
    end.
Proof.
  rewrite !extract_tag_value.
  assert (forall t, Re.match_here (capture_re k) (rbracket :: t) = None) as Hb.
  { intros t. by apply capture_no_prefix, after_tag_prefix_other. }
  induction head as [|c head IH]; cbn [app].
  - rewrite !(search_next _ _ _ (Hb _)).
    replace (Re.search (capture_re k) []) with (@None Re.matched)
      by by destruct k.
    done.
  - pose proof (capture_here_closed k (c :: head) post) as H.
    cbn [app] in H.
    destruct (Re.match_here (capture_re k) (c :: head ++ [rbracket]))
      as [m|] eqn:E1,
      (Re.match_here (capture_re k) (c :: head ++ rbracket :: post))
      as [m'|] eqn:E2; try done.
    + by rewrite (search_here _ _ _ E1), (search_here _ _ _ E2), H.
    + by rewrite (search_next _ _ _ E1), (search_next _ _ _ E2).
Qed.

(** ** Extracting twice *)

Lemma tag_here_matches k s r :
  after_prefix (tag_prefix k) s = Some r -> has_char rbracket r = true ->
  Re.match_here (delete_re k) s <> None.
Proof.
  intros E Hr Hm.
  pose proof (after_tag_is_the_match k s) as H. rewrite Hm in H.
  unfold after_tag in H. rewrite E in H.
  change (fun c : N => negb (c =? rbracket)%N)
    with (Re.in_class (Re.Except rbracket)) in H.
  destruct (lstrip_by (Re.in_class (Re.Except rbracket)) r) eqn:El; [|done].
  apply lstrip_by_nil_all, has_char_except in El. by rewrite El in Hr.
Qed.

Lemma tag_is_deleted k s :
  has_tag k s = true -> length (Re.sub (delete_re k) s) < length s.
Proof.
  remember (length s) as n eqn:Hn. revert s Hn.
  induction n as [n IH] using lt_wf_ind. intros s ->.
  destruct s as [|c s]; [by rewrite has_tag_nil|].
  destruct (Re.match_here (delete_re k) (c :: s)) as [m|] eqn:Em.
  - intros _. rewrite (sub_delete_hit _ _ _ _ Em).
    pose proof (sublist_length _ _ (sub_sublist (delete_re k) (Re.remainder m))).
    pose proof (delete_match_shorter _ _ _ Em). lia.
  - rewrite has_tag_cons, (sub_skip _ _ _ Em).
    destruct (after_prefix (tag_prefix k) (c :: s)) as [r|] eqn:E.
    + destruct (has_char rbracket r) eqn:Hr.
      * by destruct (tag_here_matches _ _ _ E Hr).
      * cbn [orb length]. intros H.
        pose proof (IH (length s) ltac:(cbn [length]; lia) s eq_refl H). lia.
    + cbn [orb length]. intros H.
      pose proof (IH (length s) ltac:(cbn [length]; lia) s eq_refl H). lia.
Qed.

Lemma sub_keeps_or_shortens k s :
  (has_tag k s = false /\ Re.sub (delete_re k) s = s)
  \/ length (Re.sub (delete_re k) s) < length s.
Proof.
  destruct (has_tag k s) eqn:E.
  - right. by apply tag_is_deleted.
  - left. split; [done|]. by apply no_tag_sub.
Qed.

Lemma unchanged_holds_no_tag clean :
  clean_message clean = PStr clean -> forall k, has_tag k clean = false.
Proof.
  rewrite extract_clean. intros [= H].
  pose proof (sublist_length _ _
    (strip_sublist (Re.sub (delete_re BOT_ID) (Re.sub (delete_re PATH)
                      (Re.sub (delete_re SESSION_ID) clean))))) as H0.
  rewrite H in H0.
  pose proof (sublist_length _ _
    (sub_sublist (delete_re BOT_ID)
       (Re.sub (delete_re PATH) (Re.sub (delete_re SESSION_ID) clean)))) as H3.
  pose proof (sublist_length _ _
    (sub_sublist (delete_re PATH) (Re.sub (delete_re SESSION_ID) clean)))
    as H2.
  destruct (sub_keeps_or_shortens SESSION_ID clean) as [[T1 E1]|L1]; [|lia].
  rewrite E1 in H0, H2, H3.
  destruct (sub_keeps_or_shortens PATH clean) as [[T2 E2]|L2]; [|lia].
  rewrite E2 in H0, H3.
  destruct (sub_keeps_or_shortens BOT_ID clean) as [[T3 E3]|L3]; [|lia].
  by intros [].
Qed.

(* ===================================================================== *)
(** * The claims of the specification                                    *)
(* ===================================================================== *)

Lemma form_tenant_eq q s b : form_tenant q s b = tag_or_explicit q b.
Proof. unfold form_tenant, tag_or_explicit. by rewrite form_context_eq. Qed.

(** C1.  The retrieval tool resolves the tenant by the precedence of the
    claim (the tenant of the BOT_ID tag, else the explicit [bot_id], else
    the tenant derived from the PATH tag, else none), for every combination
    of the three.  The booking tool does not: for the query
    ["[PATH: e1/acme/fp01] book me in"] without explicit arguments the
    precedence gives the tenant ["fp01"], which the retrieval tool
    resolves, while the booking tool resolves none and selects the first
    form instead of the second. *)
Theorem C1_booking_ignores_path :
  (forall query session_id bot_id,
     same_tenant (rag_tenant query session_id bot_id)
                 (tenant_precedence query bot_id))
  /\ let query := str "[PATH: e1/acme/fp01] book me in" in
     tenant_precedence query PNone = PStr (str "fp01")
     /\ rag_tenant query PNone PNone = PStr (str "fp01")
     /\ form_tenant query PNone PNone = PNone
     /\ (forall cfg,
           booking_url cfg (form_tenant query PNone PNone) = FORM_URL_1 cfg)
     /\ (forall cfg,
           booking_url cfg (tenant_precedence query PNone) = FORM_URL_2 cfg).
Proof.
  split; [apply rag_tenant_precedence|]. by vm_compute.
Qed.

(** What a call of each tool comes to, by what the clock or the backend
    does. *)
Lemma form_tool_outcomes (cfg : config) (w : world) (query : pystr)
    (session_id bot_id : pyval) :
  let sid := form_session query session_id bot_id in
  let outcome_of (reply apology url : pystr) :=
    match time_ms w with
    | Ok ts => Ok (success_payload reply (form_url_with_session url sid ts) sid)
    | Raise e =>
        if is_Exception e then Ok (failure_payload apology e) else Raise e
    end in
  book_appointment_tool cfg w query session_id bot_id =
    outcome_of
      (str "I'm opening the appointment booking form for you. Please fill it out to book your appointment.")
      (str "Sorry, I couldn't open the booking form at this moment.")
      (booking_url cfg (form_tenant query session_id bot_id))
  /\ cancel_appointment_tool cfg w query session_id bot_id =
    outcome_of
      (str "I'm opening the appointment cancellation form for you. Please fill it out to cancel your appointment.")
      (str "Sorry, I couldn't open the appointment cancellation form at this moment.")
      (cancelAppointmentFormUrl cfg)
  /\ reschedule_appointment_tool cfg w query session_id bot_id =
    outcome_of
      (str "I'm opening the appointment rescheduling form for you. Please fill it out to reschedule your appointment.")
      (str "Sorry, I couldn't open the appointment rescheduling form at this moment.")
      (rescheduleAppointmentFormUrl cfg).
Proof.
  cbn zeta.
  unfold book_appointment_tool, cancel_appointment_tool,
    reschedule_appointment_tool, form_session, form_tenant.
  destruct (form_context query session_id bot_id) as [sid bot].
  by destruct (time_ms w) as [ts|[[|] d]].
Qed.

Lemma rag_outcome (w : world) (query : pystr) (session_id bot_id : pyval) :
  rag_retrieval_tool w query session_id bot_id =
    match search_records w (rag_request query session_id bot_id) with
    | Ok [] => Ok (str "Sorry, I couldn't find any relevant information.")
    | Ok (h :: hits) =>
        Ok (str "Here's what I found:" ++ [10; 10]%N ++ repr_hits (h :: hits))
    | Raise e =>
        if is_Exception e
        then Ok (str "Error retrieving context from Pinecone: " ++ exn_str e)
        else Raise e
    end.
Proof.
  unfold rag_retrieval_tool.
  by destruct (search_records w _) as [[|h hits]|[[|] d]].
Qed.

(** C2 (as amended).  A fault that is an instance of [Exception] never
    leaves a tool: when the clock and the backend raise nothing but
    exceptions, every tool returns a string, whatever the query and the
    arguments; on a fault of the clock a form tool returns the JSON payload
    with [success] false and the description of the fault under [error], and
    on a fault of the backend the retrieval tool returns
    ["Error retrieving context from Pinecone: "] followed by the description
    of the fault.  (The handlers name [Exception]: another fault, such as an
    interrupt, is not caught.) *)
Theorem C2_exceptions_become_results (cfg : config) (w : world)
    (query : pystr) (session_id bot_id : pyval) :
  (forall e, time_ms w = Raise e -> is_Exception e = true) ->
  (forall e, search_records w (rag_request query session_id bot_id) = Raise e ->
             is_Exception e = true) ->
  let failure (apology : string) (e : exn) :=
    Json.dumps [("reply", Json.JStr (str apology));
                ("success", Json.JBool false);
                ("error", Json.JStr (exn_str e))] in
  ((exists r, book_appointment_tool cfg w query session_id bot_id = Ok r)
   /\ (exists r, cancel_appointment_tool cfg w query session_id bot_id = Ok r)
   /\ (exists r,
         reschedule_appointment_tool cfg w query session_id bot_id = Ok r)
   /\ (exists r, rag_retrieval_tool w query session_id bot_id = Ok r))
  /\ (forall e, time_ms w = Raise e ->
        book_appointment_tool cfg w query session_id bot_id =
          Ok (failure "Sorry, I couldn't open the booking form at this moment." e)
        /\ cancel_appointment_tool cfg w query session_id bot_id =
          Ok (failure "Sorry, I couldn't open the appointment cancellation form at this moment." e)
        /\ reschedule_appointment_tool cfg w query session_id bot_id =
          Ok (failure "Sorry, I couldn't open the appointment rescheduling form at this moment." e))
  /\ (forall e,
        search_records w (rag_request query session_id bot_id) = Raise e ->
        rag_retrieval_tool w query session_id bot_id =
          Ok (str "Error retrieving context from Pinecone: " ++ exn_str e)).
Proof.
  intros Hclock Hbackend. cbn zeta.
  destruct (form_tool_outcomes cfg w query session_id bot_id)
    as (-> & -> & ->).
  rewrite rag_outcome.
  assert (match time_ms w with
          | Raise e => is_Exception e = true
          | Ok _ => True
          end) as Hc by (destruct (time_ms w); auto).
  assert (match search_records w (rag_request query session_id bot_id) with
          | Raise e => is_Exception e = true
          | Ok _ => True
          end) as Hb by (destruct (search_records w _); auto).
  clear Hclock Hbackend.
  destruct (time_ms w) as [ts|e],
           (search_records w _) as [[|h hits]|e'];
    rewrite ?Hc, ?Hb;
    (split; [by repeat split; eexists|]);
    split; intros x Hx; inversion Hx; subst; by rewrite ?Hc, ?Hb.
Qed.

Lemma C2_exceptions_become_results_witness :
  ((exists r,
      book_appointment_tool sample_config broken_world (str "book me in")
        PNone PNone = Ok r)
   /\ (exists r,
         cancel_appointment_tool sample_config broken_world (str "book me in")
           PNone PNone = Ok r)
   /\ (exists r,
         reschedule_appointment_tool sample_config broken_world
           (str "book me in") PNone PNone = Ok r)
   /\ (exists r,
         rag_retrieval_tool broken_world (str "book me in") PNone PNone
         = Ok r))
  /\ rag_retrieval_tool broken_world (str "book me in") PNone PNone
     = Ok (str "Error retrieving context from Pinecone: " ++
           str "connection timed out").
Proof.
  destruct (C2_exceptions_become_results sample_config broken_world
              (str "book me in") PNone PNone) as (Hall & _ & Hrag).
  - intros e [= <-]. reflexivity.
  - intros e [= <-]. reflexivity.
  - split; [exact Hall|]. exact (Hrag _ eq_refl).
Defined.

(** C2, where the claim as stated fails: an interrupt raised while the
    backend is asked is not an [Exception], and leaves the retrieval tool
    without a result. *)
Lemma C2_an_interrupt_leaves_the_tool :
  ~ (forall w query session_id bot_id,
       exists r, rag_retrieval_tool w query session_id bot_id = Ok r).
Proof.
  intros H.
  destruct (H interrupted_world (str "opening hours") PNone PNone) as [r Hr].
  vm_compute in Hr. discriminate Hr.
Qed.

(** C3.  The namespace the retrieval tool passes to the backend is the
    resolved tenant when there is one and ["hr4s"] otherwise, the resolved
    tenant being the one the precedence gives: the tool asks the backend
    with that request, and its outcome is decided by the answer to it.  For
    the query ["[PATH: e1/acme/Xyz] find hours"] without an explicit tenant
    the namespace is ["Xyz"]. *)
Theorem C3_search_namespace (query : pystr) (session_id bot_id : pyval) :
  namespace (rag_request query session_id bot_id) =
    (if truthy (rag_tenant query session_id bot_id)
     then rag_tenant query session_id bot_id else PStr (str "hr4s"))
  /\ namespace (rag_request query session_id bot_id) =
    (if truthy (tenant_precedence query bot_id)
     then tenant_precedence query bot_id else PStr (str "hr4s"))
  /\ (forall w,
        rag_retrieval_tool w query session_id bot_id =
          match search_records w (rag_request query session_id bot_id) with
          | Ok [] =>
              Ok (str "Sorry, I couldn't find any relevant information.")
          | Ok (h :: hits) =>
              Ok (str "Here's what I found:" ++ [10; 10]%N ++
                  repr_hits (h :: hits))
          | Raise e =>
              if is_Exception e
              then Ok (str "Error retrieving context from Pinecone: " ++
                       exn_str e)
              else Raise e
          end)
  /\ (forall clock backend,
        rag_retrieval_tool (World clock backend) query session_id bot_id =
        rag_retrieval_tool
          (World clock
             (fun _ => backend (rag_request query session_id bot_id)))
          query session_id bot_id)
  /\ namespace (rag_request (str "[PATH: e1/acme/Xyz] find hours")
                            session_id PNone) = PStr (str "Xyz").
Proof.
  assert (namespace (rag_request query session_id bot_id) =
          (if truthy (rag_tenant query session_id bot_id)
           then rag_tenant query session_id bot_id else PStr (str "hr4s")))
    as Hns.
  { unfold rag_request, rag_tenant.
    by destruct (rag_context query session_id bot_id) as [[sid bot] q]. }
  split; [done|].
  split; [|split; [intros w; apply rag_outcome|split; [done|]]].
  - rewrite Hns.
    destruct (rag_tenant_precedence query session_id bot_id) as [->|[-> ->]];
      done.
  - unfold rag_request. rewrite rag_context_eq. by vm_compute.
Qed.

(** C4 (as amended).  Extraction removes exactly the tag occurrences, key
    by key (SESSION_ID, then PATH, then BOT_ID), each with the run of
    whitespace after it, and trims the result; and extraction is idempotent
    exactly when the clean message it produces holds no tag: then, and only
    then, extracting again from the clean message gives the same string
    and finds no tag. *)
Theorem C4_extraction_idempotent (message clean : list N) :
  clean_message message = PStr clean ->
  clean = strip (without_tags BOT_ID (without_tags PATH
                   (without_tags SESSION_ID message)))
  /\ ((forall k, has_tag k clean = false) <->
      clean_message clean = PStr clean /\ forall k, tag_value k clean = PNone).
Proof.
  intros Hclean.
  destruct (clean_message_parts message) as (c & Hc & Hs & _).
  rewrite Hc in Hclean. injection Hclean as <-.
  split.
  - rewrite clean_without_tags in Hc. by injection Hc.
  - split.
    + intros Hk. by apply clean_idempotent_without_tag.
    + intros [H _]. by apply unchanged_holds_no_tag.
Qed.

Lemma C4_extraction_idempotent_witness :
  str "see [1] what is a[i]?"
  = strip (without_tags BOT_ID (without_tags PATH
             (without_tags SESSION_ID
                (str "see [1] [BOT_ID: acme ] what is a[i]? "))))
  /\ clean_message (str "see [1] what is a[i]?")
     = PStr (str "see [1] what is a[i]?")
  /\ forall k, tag_value k (str "see [1] what is a[i]?") = PNone.
Proof.
  destruct (C4_extraction_idempotent
              (str "see [1] [BOT_ID: acme ] what is a[i]? ")
              (str "see [1] what is a[i]?") eq_refl) as [H1 [H2 _]].
  split; [exact H1|]. apply H2. intros []; reflexivity.
Defined.

(** C4, where the claim as stated fails: deleting a tag can join the text
    around it into a new tag, which a second extraction then reads and
    deletes. *)
Lemma C4_deleting_a_tag_can_form_a_tag :
  ~ (forall message clean,
       has_tag PATH message = true ->
       clean_message message = PStr clean ->
       clean_message clean = PStr clean /\
       forall k, tag_value k clean = PNone).
Proof.
  intros H.
  destruct (H (str "[SESSION_[PATH: x]ID: y]") (str "[SESSION_ID: y]"))
    as [Hclean _]; [reflexivity | by vm_compute |].
  vm_compute in Hclean. discriminate Hclean.
Qed.

(** C5 (as amended).  For a raw string without a complete tag, context
    resolution yields no session id, path or tenant; the clean query is the
    string itself when it holds none of the three tag prefixes, and the
    string with its leading and trailing whitespace removed when it holds
    one. *)
Theorem C5_no_tags (query : pystr) (session_id bot_id : pyval) :
  has_tag SESSION_ID query = false ->
  has_tag PATH query = false ->
  has_tag BOT_ID query = false ->
  (forall k, tag_value k query = PNone)
  /\ clean_message query = PStr (strip query)
  /\ rag_context query session_id bot_id =
       (session_id, bot_id, PStr (if gate query then strip query else query)).
Proof.
  intros H1 H2 H3.
  assert (forall k, tag_value k query = PNone) as Hk.
  { intros []; by apply tag_value_no_tag. }
  split; [done|]. split; [by apply clean_message_no_tag|].
  rewrite rag_context_eq, !Hk, clean_message_no_tag by done.
  cbn [py_or truthy]. cbv zeta. rewrite andb_false_r.
  by destruct (gate query).
Qed.

Lemma C5_no_tags_witness :
  (forall k, tag_value k (str "  opening hours? ") = PNone)
  /\ clean_message (str "  opening hours? ") = PStr (strip (str "  opening hours? "))
  /\ rag_context (str "  opening hours? ") PNone PNone =
       (PNone, PNone,
        PStr (if gate (str "  opening hours? ")
              then strip (str "  opening hours? ")
              else str "  opening hours? ")).
Proof.
  apply (C5_no_tags (str "  opening hours? ") PNone PNone); reflexivity.
Defined.

(** C5, where the claim as stated fails: a string with a tag prefix but no
    closing bracket holds no tag, yet its clean query differs from it. *)
Lemma C5_unclosed_tag_is_trimmed :
  let query := str " hi [PATH: x " in
  has_tag SESSION_ID query = false /\ has_tag PATH query = false /\
  has_tag BOT_ID query = false /\
  clean_message query <> PStr query /\
  rag_query query PNone PNone <> PStr query /\
  rag_query query PNone PNone = PStr (str "hi [PATH: x").
Proof. vm_compute. repeat split; done. Qed.

(** C6.  A form-tool call without a session id in the tags and without an
    explicit one does not fail for that: it returns the success payload
    with [session_id] equal to ["fallback-session-id"], and the form URL
    carries the same value. *)
Theorem C6_session_fallback (cfg : config) (w : world) (query : pystr)
    (session_id bot_id : pyval) (ts : Z) :
  time_ms w = Ok ts ->
  truthy (tag_value SESSION_ID query) = false ->
  truthy session_id = false ->
  let payload (reply : string) (url : pystr) :=
    Ok (Json.dumps
      [("reply", Json.JStr (str reply));
       ("form_url",
        Json.JStr (url ++ separator url ++ str "session_id=" ++
                   str "fallback-session-id" ++ str "&ts=" ++ str (pretty ts)));
       ("success", Json.JBool true);
       ("session_id", Json.JStr (str "fallback-session-id"))]) in
  book_appointment_tool cfg w query session_id bot_id =
    payload "I'm opening the appointment booking form for you. Please fill it out to book your appointment."
            (booking_url cfg (form_tenant query session_id bot_id))
  /\ cancel_appointment_tool cfg w query session_id bot_id =
    payload "I'm opening the appointment cancellation form for you. Please fill it out to cancel your appointment."
            (cancelAppointmentFormUrl cfg)
  /\ reschedule_appointment_tool cfg w query session_id bot_id =
    payload "I'm opening the appointment rescheduling form for you. Please fill it out to reschedule your appointment."
            (rescheduleAppointmentFormUrl cfg).
Proof.
  intros Hts Htag Hs. cbn zeta.
  unfold book_appointment_tool, cancel_appointment_tool,
    reschedule_appointment_tool, form_tenant.
  rewrite form_context_eq, Hts. unfold py_or. rewrite Htag, Hs.
  done.
Qed.

Lemma C6_session_fallback_witness :
  book_appointment_tool sample_config quiet_world (str "book me in") PNone PNone
  = Ok (Json.dumps
      [("reply", Json.JStr (str "I'm opening the appointment booking form for you. Please fill it out to book your appointment."));
       ("form_url",
        Json.JStr (str "https://forms.example/book?session_id=fallback-session-id&ts=1730000000123"));
       ("success", Json.JBool true);
       ("session_id", Json.JStr (str "fallback-session-id"))]).
Proof.
  destruct (C6_session_fallback sample_config quiet_world (str "book me in")
              PNone PNone 1730000000123%Z) as [-> _]; reflexivity.
Defined.

(** C7.  The form URL of a successful form-tool call is the selected
    template followed by [session_id=<resolved id>&ts=<milliseconds>],
    joined by ['?'] when the template holds no ['?'] and by ['&'] when it
    holds one. *)
Theorem C7_form_url (cfg : config) (w : world) (query : pystr)
    (session_id bot_id : pyval) (ts : Z) :
  time_ms w = Ok ts ->
  exists sid,
    form_session query session_id bot_id = PStr sid /\
    let link (url : pystr) :=
      url ++ (if has_char 63%N url then str "&" else str "?") ++
      str "session_id=" ++ sid ++ str "&ts=" ++ str (pretty ts) in
    let payload (reply : string) (url : pystr) :=
      Ok (Json.dumps [("reply", Json.JStr (str reply));
                      ("form_url", Json.JStr (link url));
                      ("success", Json.JBool true);
                      ("session_id", Json.JStr sid)]) in
    book_appointment_tool cfg w query session_id bot_id =
      payload "I'm opening the appointment booking form for you. Please fill it out to book your appointment."
        (if py_eq (form_tenant query session_id bot_id) (PStr (str "fp01"))
         then FORM_URL_2 cfg else FORM_URL_1 cfg)
    /\ cancel_appointment_tool cfg w query session_id bot_id =
      payload "I'm opening the appointment cancellation form for you. Please fill it out to cancel your appointment."
        (cancelAppointmentFormUrl cfg)
    /\ reschedule_appointment_tool cfg w query session_id bot_id =
      payload "I'm opening the appointment rescheduling form for you. Please fill it out to reschedule your appointment."
        (rescheduleAppointmentFormUrl cfg).
Proof.
  intros Hts.
  destruct (form_session_str query session_id bot_id) as (sid & Hsid & _).
  exists sid. split; [done|]. cbn zeta.
  unfold book_appointment_tool, cancel_appointment_tool,
    reschedule_appointment_tool, form_tenant, form_session in *.
  destruct (form_context query session_id bot_id) as [s b].
  cbn [fst snd] in *. subst s. by rewrite Hts.
Qed.

Lemma C7_form_url_witness :
  exists sid,
    form_session (str "[SESSION_ID: s1] [BOT_ID: fp01] book me in") PNone PNone
      = PStr sid /\
    book_appointment_tool sample_config quiet_world
      (str "[SESSION_ID: s1] [BOT_ID: fp01] book me in") PNone PNone
    = Ok (Json.dumps
        [("reply", Json.JStr (str "I'm opening the appointment booking form for you. Please fill it out to book your appointment."));
         ("form_url",
          Json.JStr (str "https://forms.example/book?form=2" ++ str "&" ++
                     str "session_id=" ++ sid ++ str "&ts=" ++
                     str "1730000000123"));
         ("success", Json.JBool true);
         ("session_id", Json.JStr sid)]).
Proof.
  destruct (C7_form_url sample_config quiet_world
              (str "[SESSION_ID: s1] [BOT_ID: fp01] book me in") PNone PNone
              1730000000123%Z eq_refl) as (sid & Hsid & Hbook & _).
  exists sid. split; [exact Hsid | exact Hbook].
Defined.

(** C8.  When the reranked search yields no hit, the retrieval tool
    returns exactly ["Sorry, I couldn't find any relevant information."],
    which is not the empty string. *)
Theorem C8_nothing_found (w : world) (query : pystr)
    (session_id bot_id : pyval) :
  search_records w (rag_request query session_id bot_id) = Ok [] ->
  rag_retrieval_tool w query session_id bot_id
    = Ok (str "Sorry, I couldn't find any relevant information.")
  /\ rag_retrieval_tool w query session_id bot_id <> Ok [].
Proof.
  intros H. unfold rag_retrieval_tool. rewrite H. by split.
Qed.

Lemma C8_nothing_found_witness :
  rag_retrieval_tool quiet_world (str "[BOT_ID: acme] opening hours") PNone PNone
    = Ok (str "Sorry, I couldn't find any relevant information.")
  /\ rag_retrieval_tool quiet_world (str "[BOT_ID: acme] opening hours")
       PNone PNone <> Ok [].
Proof.
  apply (C8_nothing_found quiet_world (str "[BOT_ID: acme] opening hours")
           PNone PNone).
  reflexivity.
Defined.

(** C9.  Tenant derivation strips the ['/'] at both ends of the path,
    splits it on ['/'] and returns the last segment, which is the last
    non-empty segment of the path; ["e1/burneteyecarepinecone/QApixW"]
    gives ["QApixW"], and an empty or null path gives the empty string. *)
Theorem C9_path_derivation :
  (forall p,
     get_bot_id_from_path (PStr p) =
       match p with
       | [] => []
       | _ :: _ => List.last (split slash (strip_chars [slash] p)) []
       end)
  /\ (forall p, get_bot_id_from_path (PStr p) = last_nonempty_segment p)
  /\ get_bot_id_from_path (PStr (str "e1/burneteyecarepinecone/QApixW"))
       = str "QApixW"
  /\ get_bot_id_from_path (PStr []) = []
  /\ get_bot_id_from_path PNone = [].
Proof.
  split; [by intros []|]. split; [apply get_bot_id_last_nonempty|].
  by vm_compute.
Qed.

(** C10 (as amended).  A tag whose value is empty or only whitespace is
    deleted from the clean message wherever it stands: the deleting pattern
    needs no character before the closing bracket, and the pass of the
    tag's key, like the whole extraction, leaves a subsequence of the
    message without the tag.  The capturing pattern needs one character
    there: it fails at an empty tag, and reads at a whitespace one a value
    that stripping empties.  So the key gets what the message up to the tag
    gives it, and what the rest of the message gives it when that part
    gives none.  When the tag is the first of its key, the pass of the
    key deletes just the tag and the whitespace behind it before going on;
    and when moreover no tag after an empty one gives the key a value, the
    key has no value and resolution falls through to the explicit argument
    or to the default. *)
Theorem C10_blank_tag_value (k : key) (pre w post : list N)
    (explicit other : pyval) :
  forallb isspace w = true ->
  let tag := tag_prefix k ++ w ++ [rbracket] in
  let message := pre ++ tag ++ post in
  option_map Re.remainder (Re.match_here (delete_re k) (tag ++ post))
    = Some (lstrip_by isspace post)
  /\ match Re.match_here (capture_re k) (tag ++ post) with
     | Some m => w <> [] /\ strip (Re.piece_text m 2) = []
     | None => w = []
     end
  /\ Re.sub (delete_re k) message `sublist_of` pre ++ post
  /\ (exists clean,
        clean_message message = PStr clean /\ clean `sublist_of` pre ++ post)
  /\ tag_value k message
     = match tag_value k (pre ++ tag) with
       | PNone => tag_value k post
       | v => v
       end
  /\ (contains (tag_prefix k) pre = false ->
      Re.sub (delete_re k) message
        = pre ++ Re.sub (delete_re k) (lstrip_by isspace post)
      /\ tag_value k (pre ++ tag)
        = (if bool_decide (w = []) then PNone else PStr [])
      /\ ((w = [] -> truthy (tag_value k post) = false) ->
          truthy (tag_value k message) = false
          /\ py_or (tag_value k message) explicit = explicit
          /\ match k with
             | SESSION_ID =>
                 form_session message explicit other =
                   (if truthy explicit then explicit
                    else PStr (str "fallback-session-id"))
             | BOT_ID => form_tenant message other explicit = explicit
             | PATH =>
                 rag_tenant message other explicit =
                   py_or (tag_value BOT_ID message) explicit
             end)).
Proof.
  intros Hw tag message.
  assert (has_char rbracket w = false) as Hwr by by apply has_char_all_space.
  split.
  { unfold tag. rewrite <- !app_assoc. cbn [app].
    by rewrite delete_tag. }
  split; [by apply blank_tag_capture|].
  split.
  { destruct (blank_tag_pass k k w pre post Hw) as [H|[E _]]; [done|].
    by destruct k. }
  split; [by apply blank_tag_is_deleted|].
  split.
  { unfold message, tag.
    replace (pre ++ (tag_prefix k ++ w ++ [rbracket]) ++ post)
      with ((pre ++ tag_prefix k ++ w) ++ rbracket :: post)
      by by rewrite <- !app_assoc.
    replace (pre ++ tag_prefix k ++ w ++ [rbracket])
      with ((pre ++ tag_prefix k ++ w) ++ [rbracket])
      by by rewrite <- !app_assoc.
    apply tag_value_closed. }
  intros Hpre.
  pose proof (blank_tag_value k w pre [] Hw Hpre) as Hhead.
  rewrite app_nil_r in Hhead.
  replace (tag_value k []) with PNone in Hhead by by destruct k.
  split.
  { unfold message, tag. rewrite <- !app_assoc. cbn [app].
    pose proof (delete_tag k w post Hwr) as Hm.
    destruct (tag_prefix_cons k) as [l Hl]. rewrite Hl in Hm |- *.
    cbn [app] in Hm |- *.
    by rewrite (sub_before_bracket _ _ _ Hpre), (sub_delete_hit _ _ _ _ Hm). }
  split; [done|]. intros Hpost.
  assert (truthy (tag_value k message) = false) as Hfalse.
  { unfold message, tag. rewrite blank_tag_value by done.
    case_bool_decide; [by apply Hpost|done]. }
  split; [done|]. split; [by unfold py_or; rewrite Hfalse|].
  destruct k.
  - unfold form_session. rewrite form_context_eq. cbn [fst].
    unfold py_or. by rewrite Hfalse.
  - rewrite rag_tenant_eq. unfold py_or. rewrite Hfalse.
    destruct (truthy (tag_value BOT_ID message)); [done|].
    by destruct (truthy explicit).
  - unfold form_tenant. rewrite form_context_eq. cbn [snd].
    unfold py_or. by rewrite Hfalse.
Qed.

Lemma C10_blank_tag_value_witness :
  let message := str "see [1] [SESSION_ID:   ] book me in" in
  truthy (tag_value SESSION_ID message) = false
  /\ form_session message (PStr (str "s7")) PNone = PStr (str "s7")
  /\ exists clean,
       clean_message message = PStr clean
       /\ clean `sublist_of` str "see [1] " ++ str " book me in".
Proof.
  destruct (C10_blank_tag_value SESSION_ID (str "see [1] ") (str "   ")
              (str " book me in") (PStr (str "s7")) PNone eq_refl)
    as (_ & _ & _ & Hclean & _ & Hfirst).
  destruct (Hfirst eq_refl) as (_ & _ & Hvalue).
  destruct Hvalue as (Hfalse & _ & Hsession); [intros Hw; discriminate Hw|].
  split; [exact Hfalse|]. split; [exact Hsession|exact Hclean].
Defined.

(** C10, where the claim as stated fails: the search for a value passes
    over an empty tag, so that after ["[SESSION_ID:]"] a later tag of the
    key still gives the session id, and the explicit argument is not
    used. *)
Lemma C10_an_empty_tag_is_passed_over :
  ~ (forall pre w post explicit other,
       forallb isspace w = true ->
       let message :=
         pre ++ (tag_prefix SESSION_ID ++ w ++ [rbracket]) ++ post in
       truthy (tag_value SESSION_ID message) = false
       /\ form_session message explicit other
          = (if truthy explicit then explicit
             else PStr (str "fallback-session-id"))).
Proof.
  intros H.
  destruct (H [] [] (str " [SESSION_ID: s1] book me in")
              (PStr (str "s7")) PNone eq_refl) as [Hvalue _].
  vm_compute in Hvalue. discriminate Hvalue.
Qed.

(** The other way a blank tag can fail to blank its key: an earlier tag of
    the key has a value. *)
Example a_blank_tag_behind_a_valued_one :
  tag_value SESSION_ID (str "[SESSION_ID: s1] [SESSION_ID:   ] book me in")
  = PStr (str "s1")
  /\ form_session (str "[SESSION_ID: s1] [SESSION_ID:   ] book me in")
       (PStr (str "s7")) PNone
     = PStr (str "s1")
  /\ clean_message (str "[SESSION_ID: s1] [SESSION_ID:   ] book me in")
     = PStr (str "book me in").
Proof. by vm_compute. Qed.
